(** * clickhouse_fdw: the custom object and column caches of
      [src/clickhousedb_adjust.c]

    A shallow embedding of the file's five functions
    ([invalidate_custom_columns_cache], [checkForCustomFunction],
    [checkForCustomType], [ApplyCustomTableOptions], [GetCustomColumnInfo])
    and of the pieces of libc, dynahash and the PostgreSQL catalog they call,
    followed by the properties of the caches and of the engine-option parser.

    Conventions.
    - A C string is a [list ascii] holding the characters before the
      terminator; a [char] array is a [list ascii] holding every byte of the
      array, terminator and stale bytes included.
    - A pointer into a string is an [option nat]: [None] is [NULL], [Some i]
      points at offset [i].
    - The two static hash tables are the two fields of [state]; [None] is the
      [NULL] they start with.
    - [elog(ERROR, ...)] leaves the function: [Raised] carries the message and
      the static state as it is at that moment.  What C leaves undefined
      (a store past an array, a difference with a null pointer) is
      [Undefined]. *)

From Stdlib Require Import ZArith Ascii String List Lia.
From stdpp Require Import base option list gmap strings.

Local Open Scope Z_scope.

(** ** C strings and character arrays *)

Abbreviation cstring := (list ascii).

Definition lit (s : string) : cstring := list_ascii_of_string s.
Arguments lit : simpl never.

Definition NUL : ascii := Ascii.zero.

Definition is_nul (c : ascii) : bool := Ascii.eqb c NUL.

(** No terminator inside the content: what every C string satisfies. *)
Definition NoNul (s : cstring) : Prop := Forall (λ c, c ≠ NUL) s.

Definition char_code (c : ascii) : Z := Z.of_nat (nat_of_ascii c).

(** [tolower] of the C locale. *)
Definition tolower (c : ascii) : ascii :=
  let n := nat_of_ascii c in
  if ((65 <=? n) && (n <=? 90))%nat then ascii_of_nat (n + 32) else c.

(** [strcmp]: the difference of the first two characters that differ, the
    terminator counting as 0. *)
Fixpoint strcmp (s1 s2 : cstring) : Z :=
  match s1, s2 with
  | [], [] => 0
  | [], c2 :: _ => - char_code c2
  | c1 :: _, [] => char_code c1
  | c1 :: r1, c2 :: r2 =>
      if Ascii.eqb c1 c2 then strcmp r1 r2 else char_code c1 - char_code c2
  end.

(** [strncasecmp]: at most [n] characters compared through [tolower]; the
    comparison ends at the terminator. *)
Fixpoint strncasecmp (s1 s2 : cstring) (n : nat) : Z :=
  match n with
  | O => 0
  | S n' =>
      let c1 := hd NUL s1 in
      let c2 := hd NUL s2 in
      let d := char_code (tolower c1) - char_code (tolower c2) in
      if negb (d =? 0) then d
      else if is_nul c1 then 0
      else strncasecmp (tl s1) (tl s2) n'
  end.

Definition strlen (s : cstring) : nat := length s.

(** [index(s, c)]: the first occurrence of [c]. *)
Fixpoint index (s : cstring) (c : ascii) : option nat :=
  match s with
  | [] => None
  | x :: r => if Ascii.eqb x c then Some O else S <$> index r c
  end.

(** [rindex(s, c)]: the last occurrence of [c]. *)
Fixpoint rindex (s : cstring) (c : ascii) : option nat :=
  match s with
  | [] => None
  | x :: r =>
      match rindex r c with
      | Some i => Some (S i)
      | None => if Ascii.eqb x c then Some O else None
      end
  end.

(** [p == q] on two pointers into the same string. *)
Definition ptr_eq (p q : option nat) : bool :=
  match p, q with
  | None, None => true
  | Some i, Some j => Nat.eqb i j
  | _, _ => false
  end.

(** The string held by a character array: the bytes before the first
    terminator.  [None] when the array holds no terminator, so that reading it
    as a string runs off its end. *)
Fixpoint c_str (buf : list ascii) : option cstring :=
  match buf with
  | [] => None
  | c :: r => if is_nul c then Some [] else (c ::.) <$> c_str r
  end.

(** The [n] bytes [strncpy] writes: the characters of [src] up to its
    terminator, then terminators up to [n] bytes. *)
Fixpoint strncpy_bytes (src : cstring) (n : nat) {struct n} : list ascii :=
  match n with
  | O => []
  | S n' =>
      match src with
      | [] => replicate n NUL
      | c :: r => if is_nul c then replicate n NUL else c :: strncpy_bytes r n'
      end
  end.

(** [strncpy(dst, src, n)] into an array, [n] a [size_t]; [None] when [n]
    bytes do not fit. *)
Definition strncpy (dst : list ascii) (src : cstring) (n : Z) : option (list ascii) :=
  if n <=? Z.of_nat (length dst)
  then Some (strncpy_bytes src (Z.to_nat n) ++ drop (Z.to_nat n) dst)
  else None.

(** [strcpy(dst, src)] into an array: the characters and the terminator;
    [None] when they do not fit. *)
Definition strcpy (dst : list ascii) (src : cstring) : option (list ascii) :=
  if (length src <? length dst)%nat
  then Some (src ++ NUL :: drop (S (length src)) dst)
  else None.

(** [buf[i] = c]; [None] when [i] is outside the array. *)
Definition store (buf : list ascii) (i : Z) (c : ascii) : option (list ascii) :=
  if (0 <=? i) && (i <? Z.of_nat (length buf))
  then Some (<[Z.to_nat i := c]> buf)
  else None.

(** A [size_t] is 64 bits wide: the conversion of a negative [ptrdiff_t]
    wraps around. *)
Definition to_size_t (z : Z) : Z := z mod 2 ^ 64.

(** ** Results *)

(** The result of code that touches no static state. *)
Inductive result (A : Type) : Type :=
| Ok (a : A)
| Error (msg : string)
| UB.
Arguments Ok {A} a.
Arguments Error {A} msg.
Arguments UB {A}.

Definition result_bind {A B : Type} (r : result A) (k : A → result B) : result B :=
  match r with
  | Ok a => k a
  | Error msg => Error msg
  | UB => UB
  end.

Definition of_option {A : Type} (o : option A) : result A :=
  match o with
  | Some a => Ok a
  | None => UB
  end.

Notation "'let?' x ':=' m 'in' k" := (result_bind m (λ x, k))
  (at level 10, x pattern, m at level 100, k at level 200, only parsing).

(** ** Data model *)

Definition Oid : Type := Z.

(** [NAMEDATALEN] of PostgreSQL's [pg_config_manual.h]. *)
Definition NAMEDATALEN : Z := 64.

(** [ProcedureRelationId] and [TypeRelationId] of [catalog/pg_proc.h] and
    [catalog/pg_type.h]. *)
Definition ProcedureRelationId : Oid := 1255.
Definition TypeRelationId : Oid := 1247.

(** Modelled from the spec: the enumeration [custom_object_type] of
    [clickhousedb_fdw.h], which is missing; the spec's object kinds [Usual],
    [AggregateRewrite], [SparseMapType] and column kinds [SparseMapArray],
    [SparseMapKeyColumn], under the names the source uses. *)
Inductive custom_object_type : Type :=
| CF_USUAL
| CF_ISTORE_TYPE
| CF_ISTORE_ARR
| CF_ISTORE_COL
| CF_ISTORE_SUM.

Global Instance custom_object_type_eq_dec : EqDecision custom_object_type.
Proof. solve_decision. Defined.

(** Modelled from the spec: the enumeration [CHRemoteTableEngine] of
    [clickhousedb_fdw.h], which is missing; the spec's engine kinds [Usual]
    ([CH_DEFAULT]) and [CollapsingVersioned] ([CH_COLLAPSING_MERGE_TREE]). *)
Inductive CHRemoteTableEngine : Type :=
| CH_DEFAULT
| CH_COLLAPSING_MERGE_TREE.

Global Instance CHRemoteTableEngine_eq_dec : EqDecision CHRemoteTableEngine.
Proof. solve_decision. Defined.

(** Modelled from the spec: the struct [CustomObjectDef] of
    [clickhousedb_fdw.h], which is missing.  Its first [sizeof(Oid)] bytes are
    where dynahash keeps the key, so they are the key of the map and not a
    field here.  [custom_name] is [None] as long as nothing was written to
    it: [HASH_ENTER] hands out the entry without clearing it. *)
Record CustomObjectDef : Type := mkCustomObjectDef {
  cf_type : custom_object_type;
  custom_name : option cstring
}.

(** Modelled from the spec: the struct [CustomColumnInfo] of
    [clickhousedb_fdw.h], which is missing.  Its first two fields, [relid] and
    [varattno], are the [sizeof(Oid) + sizeof(int)] bytes that dynahash uses as
    the key, so they are the key of the map and not fields here.  [colname] and
    [signfield] are the strings held by two [char[NAMEDATALEN]] arrays. *)
Record CustomColumnInfo : Type := mkCustomColumnInfo {
  table_engine : CHRemoteTableEngine;
  coltype : custom_object_type;
  colname : cstring;
  signfield : cstring
}.

(** A [DefElem]: [defname] and the string [defGetString] returns. *)
Record DefElem : Type := mkDefElem {
  defname : cstring;
  defGetString : cstring
}.

(** Modelled from the spec: the fields of the struct [CHFdwRelationInfo] of
    [clickhousedb_fdw.h], which is missing, that this file reads and writes:
    [table->options], [ch_table_engine] and the array
    [char ch_table_sign_field[NAMEDATALEN]], every byte of it. *)
Record CHFdwRelationInfo : Type := mkCHFdwRelationInfo {
  table_options : list DefElem;
  ch_table_engine : CHRemoteTableEngine;
  ch_table_sign_field : list ascii
}.

(** A relation info as [palloc0] returns it. *)
Definition fresh_fpinfo (options : list DefElem) : CHFdwRelationInfo :=
  {| table_options := options;
     ch_table_engine := CH_DEFAULT;
     ch_table_sign_field := replicate (Z.to_nat NAMEDATALEN) NUL |}.

(** A column of a tuple descriptor: [attname] and [atttypid]. *)
Record Form_pg_attribute : Type := mkAttribute {
  attname : cstring;
  atttypid : Oid
}.

(** ** The engine option *)

Definition expected : cstring := lit "collapsingmergetree".

(** The body of [if (strcmp(def->defname, "engine") == 0)] in
    [ApplyCustomTableOptions], on the value [val] of the option.  [d] is
    [end - start]; with one of the two pointers null the difference is not
    defined. *)
Definition engine_option (val : cstring) (fpinfo : CHFdwRelationInfo)
  : result CHFdwRelationInfo :=
  if strncasecmp val expected (strlen expected) =? 0 then
    let start := index val "("%char in
    let end_ := rindex val ")"%char in
    let fpinfo :=
      {| table_options := table_options fpinfo;
         ch_table_engine := CH_COLLAPSING_MERGE_TREE;
         ch_table_sign_field := ch_table_sign_field fpinfo |} in
    if ptr_eq start end_ then
      let? buf := of_option (strcpy (ch_table_sign_field fpinfo) (lit "sign")) in
      Ok {| table_options := table_options fpinfo;
            ch_table_engine := ch_table_engine fpinfo;
            ch_table_sign_field := buf |}
    else
      match start, end_ with
      | Some s, Some e =>
          let d := Z.of_nat e - Z.of_nat s in
          if d >? NAMEDATALEN then Error "invalid format of ClickHouse engine"
          else
            let? buf := of_option (strncpy (ch_table_sign_field fpinfo)
                                     (drop (S s) val) (to_size_t (d - 1))) in
            let? buf := of_option (store buf d NUL) in
            Ok {| table_options := table_options fpinfo;
                  ch_table_engine := ch_table_engine fpinfo;
                  ch_table_sign_field := buf |}
      | _, _ => UB
      end
  else Ok fpinfo.

(** The first [foreach] of [ApplyCustomTableOptions]. *)
Fixpoint table_options_loop (options : list DefElem) (fpinfo : CHFdwRelationInfo)
  : result CHFdwRelationInfo :=
  match options with
  | [] => Ok fpinfo
  | def :: rest =>
      if strcmp (defname def) (lit "engine") =? 0 then
        let? fpinfo := engine_option (defGetString def) fpinfo in
        table_options_loop rest fpinfo
      else table_options_loop rest fpinfo
  end.

(** ** The static state and the catalog *)

(** [custom_objects_cache] and [custom_columns_cache].  The callback
    [invalidate_custom_columns_cache] is registered by
    [create_custom_columns_cache], that is exactly when the second field
    leaves [None]. *)
Record state : Type := mkState {
  custom_objects_cache : option (gmap Z CustomObjectDef);
  custom_columns_cache : option (gmap (Oid * Z) CustomColumnInfo)
}.

Definition initial_state : state :=
  {| custom_objects_cache := None; custom_columns_cache := None |}.

(** The entries of the two tables, a table not yet created having none. *)
Definition objects (st : state) : gmap Z CustomObjectDef :=
  default ∅ (custom_objects_cache st).

Definition columns (st : state) : gmap (Oid * Z) CustomColumnInfo :=
  default ∅ (custom_columns_cache st).

(** The result of a function of the file. *)
Inductive outcome (A : Type) : Type :=
| Done (a : A) (st : state)
| Raised (msg : string) (st : state)
| Undefined.
Arguments Done {A} a st.
Arguments Raised {A} msg st.
Arguments Undefined {A}.

Definition bind {A B : Type} (m : state → outcome A) (k : A → state → outcome B)
  : state → outcome B :=
  λ st,
    match m st with
    | Done a st' => k a st'
    | Raised msg st' => Raised msg st'
    | Undefined => Undefined
    end.

Definition ret {A : Type} (a : A) : state → outcome A := λ st, Done a st.

Notation "'let*' x ':=' m 'in' k" := (bind m (λ x, k))
  (at level 10, x pattern, m at level 100, k at level 200, only parsing).

(** The key under which dynahash keeps an [Oid] in a table that
    [hash_create] made with [HASH_ELEM] alone, as [create_custom_objects_cache]
    does ([create_custom_columns_cache] adds [HASH_BLOBS]): the four bytes are
    taken for a string, hashed by [string_hash], compared by [strncmp] over
    [keysize - 1] bytes and copied by [strlcpy].  What counts is the bytes
    before the first zero byte among the first three, here in little-endian
    order: the key of 16640 = 0x4100 is the empty string, that of 20000 =
    0x4E20 is the whole number. *)
Definition string_key (oid : Oid) : Z :=
  if oid mod 256 =? 0 then 0
  else if (oid / 256) mod 256 =? 0 then oid mod 256
  else if (oid / 65536) mod 256 =? 0 then oid mod 65536
  else oid mod 16777216.

(** What the file asks of the host: [is_builtin] (declared in the missing
    [clickhousedb_fdw.h]), the catalog calls of PostgreSQL, and [object_key],
    the key dynahash makes of the [Oid] handed to [custom_objects_cache]
    ([string_key] for the table as it is created; the [Oid] itself had the
    table been created with [HASH_BLOBS]).
    [SearchSysCache1_PROCOID] gives the [proname] of the [pg_proc] tuple, or
    [None] for an invalid tuple; [RelationGetDescr] gives the columns of the
    relation [heap_open] opens. *)
Record CatalogProvider : Type := mkCatalog {
  object_key : Oid → Z;
  is_builtin : Oid → bool;
  getExtensionOfObject : Oid → Oid → Oid;
  get_extension_name : Oid → option cstring;
  SearchSysCache1_PROCOID : Oid → option cstring;
  RelationGetDescr : Oid → list Form_pg_attribute;
  GetForeignColumnOptions : Oid → Z → list DefElem
}.

(** ** The object cache *)

(** [if (!custom_objects_cache) custom_objects_cache =
    create_custom_objects_cache();] *)
Definition ensure_objects_cache : state → outcome (gmap Z CustomObjectDef) :=
  λ st,
    let m := objects st in
    Done m {| custom_objects_cache := Some m;
              custom_columns_cache := custom_columns_cache st |}.

(** A store through the pointer [hash_search] returned for [key]. *)
Definition set_object (key : Z) (entry : CustomObjectDef) : state → outcome unit :=
  λ st,
    Done tt {| custom_objects_cache := Some (<[key := entry]> (objects st));
               custom_columns_cache := custom_columns_cache st |}.

Definition raise {A : Type} (msg : string) : state → outcome A :=
  λ st, Raised msg st.

(** [extname && strcmp(extname, "istore") == 0] *)
Definition is_istore (extname : option cstring) : bool :=
  match extname with
  | Some n => strcmp n (lit "istore") =? 0
  | None => false
  end.

Definition checkForCustomFunction (cat : CatalogProvider) (funcid : Oid)
  : state → outcome (option CustomObjectDef) :=
  let* cache := ensure_objects_cache in
  if is_builtin cat funcid then ret None
  else
    match cache !! object_key cat funcid with
    | Some entry => ret (Some entry)
    | None =>
        let extoid := getExtensionOfObject cat ProcedureRelationId funcid in
        let extname := get_extension_name cat extoid in
        let entry := {| cf_type := CF_USUAL; custom_name := None |} in
        let* _ := set_object (object_key cat funcid) entry in
        if is_istore extname then
          match SearchSysCache1_PROCOID cat funcid with
          | None => raise "cache lookup failed for function %u"
          | Some proname =>
              if strcmp proname (lit "sum") =? 0 then
                let entry := {| cf_type := CF_ISTORE_SUM;
                                custom_name := Some (lit "sumMap") |} in
                let* _ := set_object (object_key cat funcid) entry in
                ret (Some entry)
              else ret (Some entry)
          end
        else ret (Some entry)
    end.

Definition checkForCustomType (cat : CatalogProvider) (typeoid : Oid)
  : state → outcome (option CustomObjectDef) :=
  let* cache := ensure_objects_cache in
  if is_builtin cat typeoid then ret None
  else
    match cache !! object_key cat typeoid with
    | Some entry => ret (Some entry)
    | None =>
        let extoid := getExtensionOfObject cat TypeRelationId typeoid in
        let extname := get_extension_name cat extoid in
        let entry := {| cf_type := CF_USUAL; custom_name := None |} in
        let* _ := set_object (object_key cat typeoid) entry in
        if is_istore extname then
          let entry := {| cf_type := CF_ISTORE_TYPE; custom_name := None |} in
          let* _ := set_object (object_key cat typeoid) entry in
          ret (Some entry)
        else ret (Some entry)
    end.

(** ** The column cache *)

(** [if (custom_columns_cache == NULL) custom_columns_cache =
    create_custom_columns_cache();] *)
Definition ensure_columns_cache : state → outcome (gmap (Oid * Z) CustomColumnInfo) :=
  λ st,
    let m := columns st in
    Done m {| custom_objects_cache := custom_objects_cache st;
              custom_columns_cache := Some m |}.

Definition set_column (key : Oid * Z) (entry : CustomColumnInfo) : state → outcome unit :=
  λ st,
    Done tt {| custom_objects_cache := custom_objects_cache st;
               custom_columns_cache := Some (<[key := entry]> (columns st)) |}.

(** The loop of [invalidate_custom_columns_cache] over the entries
    [hash_seq_search] returns, [m] being the table as the removals leave it.
    The key handed to [HASH_REMOVE] is [&entry->relid], the entry's own key. *)
Fixpoint invalidate_loop (keys : list (Oid * Z)) (m : gmap (Oid * Z) CustomColumnInfo)
  : gmap (Oid * Z) CustomColumnInfo + gmap (Oid * Z) CustomColumnInfo :=
  match keys with
  | [] => inl m
  | key :: rest =>
      match m !! key with
      | None => inr m
      | Some _ => invalidate_loop rest (delete key m)
      end
  end.

(** The callback; its three arguments (the [Datum] given at registration,
    the cache identifier and the hash value of the changed tuple) are not
    used. *)
Definition invalidate_custom_columns_cache (arg cacheid hashvalue : Z)
  : state → outcome unit :=
  λ st,
    match custom_columns_cache st with
    | None => Undefined
    | Some m =>
        match invalidate_loop (map_to_list m).*1 m with
        | inl m' =>
            Done tt {| custom_objects_cache := custom_objects_cache st;
                       custom_columns_cache := Some m' |}
        | inr m' =>
            Raised "hash table corrupted"
              {| custom_objects_cache := custom_objects_cache st;
                 custom_columns_cache := Some m' |}
        end
    end.

Definition GetCustomColumnInfo (relid : Oid) (varattno : Z)
  : state → outcome (option CustomColumnInfo) :=
  let* cache := ensure_columns_cache in
  ret (cache !! (relid, varattno)).

(** The column options loop of [ApplyCustomTableOptions]: the entry under
    construction and the local [cf_type].  [strncpy(entry->colname, value,
    NAMEDATALEN)] followed by [entry->colname[NAMEDATALEN - 1] = '\0'] leaves
    the first [NAMEDATALEN - 1] characters of the value. *)
Fixpoint column_options_loop (options : list DefElem)
    (entry : CustomColumnInfo) (cf_type : custom_object_type)
  : CustomColumnInfo * custom_object_type :=
  match options with
  | [] => (entry, cf_type)
  | def :: rest =>
      if strcmp (defname def) (lit "column_name") =? 0 then
        column_options_loop rest
          {| table_engine := table_engine entry;
             coltype := coltype entry;
             colname := take (Z.to_nat (NAMEDATALEN - 1)) (defGetString def);
             signfield := signfield entry |}
          cf_type
      else if strcmp (defname def) (lit "arrays") =? 0 then
        column_options_loop rest entry CF_ISTORE_ARR
      else if strcmp (defname def) (lit "keys") =? 0 then
        column_options_loop rest entry CF_ISTORE_COL
      else column_options_loop rest entry cf_type
  end.

(** [cdef && cdef->cf_type == CF_ISTORE_TYPE] *)
Definition is_istore_type (cdef : option CustomObjectDef) : bool :=
  match cdef with
  | Some d => bool_decide (cf_type d = CF_ISTORE_TYPE)
  | None => false
  end.

(** [hash_search(custom_columns_cache, key, HASH_ENTER, &found)]: the table
    behind the pointer, which must not be [NULL], and whether it holds [key]. *)
Definition hash_search_columns (key : Oid * Z) : state → outcome bool :=
  λ st,
    match custom_columns_cache st with
    | None => Undefined
    | Some cache => Done (bool_decide (is_Some (cache !! key))) st
    end.

(** One turn of the [for] loop over the attributes.  The entry that
    [HASH_ENTER] hands out is filled through the pointer; nothing between
    [HASH_ENTER] and the last store leaves the function, so the turn writes
    the finished entry.  [strcpy(entry->signfield, ...)] reads the sign field
    as a string; [strcpy(entry->colname, NameStr(attr->attname))] copies a
    [NameData], which fits. *)
Definition column_step (cat : CatalogProvider) (fpinfo : CHFdwRelationInfo)
    (relid : Oid) (attnum : Z) (attr : Form_pg_attribute)
  : state → outcome unit :=
  let* found := hash_search_columns (relid, attnum) in
  if found then ret tt
  else
    match c_str (ch_table_sign_field fpinfo) with
    | None => λ _, Undefined
    | Some sign =>
        let entry :=
          {| table_engine := ch_table_engine fpinfo;
             coltype := CF_USUAL;
             colname := attname attr;
             signfield := sign |} in
        let '(entry, cf_type) :=
          column_options_loop (GetForeignColumnOptions cat relid attnum)
            entry CF_ISTORE_ARR in
        let* cdef := checkForCustomType cat (atttypid attr) in
        if is_istore_type cdef then
          set_column (relid, attnum)
            {| table_engine := table_engine entry;
               coltype := cf_type;
               colname := colname entry;
               signfield := signfield entry |}
        else set_column (relid, attnum) entry
    end.

Fixpoint columns_loop (cat : CatalogProvider) (fpinfo : CHFdwRelationInfo)
    (relid : Oid) (attnum : Z) (attrs : list Form_pg_attribute)
  : state → outcome unit :=
  match attrs with
  | [] => ret tt
  | attr :: rest =>
      let* _ := column_step cat fpinfo relid attnum attr in
      columns_loop cat fpinfo relid (attnum + 1) rest
  end.

(** [ApplyCustomTableOptions]; the result is [fpinfo] as the call leaves it. *)
Definition ApplyCustomTableOptions (cat : CatalogProvider)
    (fpinfo : CHFdwRelationInfo) (relid : Oid)
  : state → outcome CHFdwRelationInfo :=
  match table_options_loop (table_options fpinfo) fpinfo with
  | Error msg => raise msg
  | UB => λ _, Undefined
  | Ok fpinfo =>
      let* _ := ensure_columns_cache in
      let* _ := columns_loop cat fpinfo relid 1 (RelationGetDescr cat relid) in
      ret fpinfo
  end.

(** ** Closed forms used by the proofs *)

Definition usual_object : CustomObjectDef :=
  {| cf_type := CF_USUAL; custom_name := None |}.

(** The entry [checkForCustomType] writes on a miss. *)
Definition new_type_entry (cat : CatalogProvider) (typeoid : Oid) : CustomObjectDef :=
  if is_istore (get_extension_name cat (getExtensionOfObject cat TypeRelationId typeoid))
  then {| cf_type := CF_ISTORE_TYPE; custom_name := None |}
  else usual_object.

(** What [checkForCustomType] returns on a table holding [m]... *)
Definition type_lookup (cat : CatalogProvider) (m : gmap Z CustomObjectDef)
    (typeoid : Oid) : option CustomObjectDef :=
  if is_builtin cat typeoid then None
  else Some (default (new_type_entry cat typeoid) (m !! object_key cat typeoid)).

(** ... and what the table holds afterwards. *)
Definition type_objects (cat : CatalogProvider) (m : gmap Z CustomObjectDef)
    (typeoid : Oid) : gmap Z CustomObjectDef :=
  if is_builtin cat typeoid then m
  else
    match m !! object_key cat typeoid with
    | Some _ => m
    | None => <[object_key cat typeoid := new_type_entry cat typeoid]> m
    end.

(** The function is owned by the extension [istore] and is called [sum]. *)
Definition is_istore_sum (cat : CatalogProvider) (funcid : Oid) : bool :=
  is_istore (get_extension_name cat (getExtensionOfObject cat ProcedureRelationId funcid))
  && match SearchSysCache1_PROCOID cat funcid with
     | Some proname => strcmp proname (lit "sum") =? 0
     | None => false
     end.

(** The answer for the function [funcid] that goes with the catalog: the
    rewrite to [sumMap] for the [sum] of [istore], a usual entry otherwise. *)
Definition function_override (cat : CatalogProvider) (funcid : Oid)
    (entry : CustomObjectDef) : Prop :=
  if is_istore_sum cat funcid
  then cf_type entry = CF_ISTORE_SUM ∧ custom_name entry = Some (lit "sumMap")
  else cf_type entry = CF_USUAL.

(** The entry of a column that is not yet in the table, [sign] being the
    string in [fpinfo->ch_table_sign_field] and [cdef] what
    [checkForCustomType] returned for the type of the column. *)
Definition new_column (cat : CatalogProvider) (fpinfo : CHFdwRelationInfo)
    (sign : cstring) (relid : Oid) (attnum : Z) (attr : Form_pg_attribute)
    (cdef : option CustomObjectDef) : CustomColumnInfo :=
  let '(entry, cf_type) :=
    column_options_loop (GetForeignColumnOptions cat relid attnum)
      {| table_engine := ch_table_engine fpinfo;
         coltype := CF_USUAL;
         colname := attname attr;
         signfield := sign |}
      CF_ISTORE_ARR in
  if is_istore_type cdef then
    {| table_engine := table_engine entry;
       coltype := cf_type;
       colname := colname entry;
       signfield := signfield entry |}
  else entry.

(** The value of the last [column_name] option of a column, if it has one. *)
Fixpoint last_column_name (options : list DefElem) : option cstring :=
  match options with
  | [] => None
  | def :: rest =>
      match last_column_name rest with
      | Some v => Some v
      | None =>
          if strcmp (defname def) (lit "column_name") =? 0
          then Some (defGetString def)
          else None
      end
  end.

(** The table holds a column for every attribute numbered from [attnum]. *)
Definition all_cached (relid : Oid) (attnum : Z) (attrs : list Form_pg_attribute)
    (m : gmap (Oid * Z) CustomColumnInfo) : Prop :=
  ∀ i : nat, (i < length attrs)%nat → is_Some (m !! (relid, attnum + Z.of_nat i)).

(** The invariant of the spec on one entry of the column cache. *)
Definition sign_invariant (entry : CustomColumnInfo) : Prop :=
  table_engine entry = CH_COLLAPSING_MERGE_TREE → signfield entry ≠ [].

(** [fpinfo] after a matching engine option left [buf] in the sign field. *)
Definition set_sign_field (fpinfo : CHFdwRelationInfo) (buf : list ascii)
  : CHFdwRelationInfo :=
  {| table_options := table_options fpinfo;
     ch_table_engine := CH_COLLAPSING_MERGE_TREE;
     ch_table_sign_field := buf |}.

(** The state at the head of the column loop. *)
Definition with_columns_cache (st : state) : state :=
  {| custom_objects_cache := custom_objects_cache st;
     custom_columns_cache := Some (columns st) |}.

(** ** A catalog to run the code on

    Relation 16384 has three columns: [id] of the builtin type 23, with a
    [column_name] option of 70 characters and a [keys] option; [m] of type
    20000, which the extension [istore] owns, with a [keys] option; [n] of
    type 20002, which no extension owns, with an [arrays] option.  Functions
    20001 and 20224 are called [sum] and belong to [istore]; function 20000,
    which has the number of the type of [m], and function 16640 belong to no
    extension.  The object table is keyed by [string_key]. *)
Definition example_catalog : CatalogProvider :=
  {| object_key := string_key;
     is_builtin := λ oid, oid <? 16384;
     getExtensionOfObject := λ classid objid,
       if (classid =? TypeRelationId) && (objid =? 20000) then 16500
       else if (classid =? ProcedureRelationId)
               && ((objid =? 20001) || (objid =? 20224)) then 16500
       else 0;
     get_extension_name := λ extoid,
       if extoid =? 16500 then Some (lit "istore") else None;
     SearchSysCache1_PROCOID := λ funcid,
       if (funcid =? 20001) || (funcid =? 20224) then Some (lit "sum")
       else if (funcid =? 20000) || (funcid =? 16640) then Some (lit "total")
       else None;
     RelationGetDescr := λ relid,
       if relid =? 16384
       then [mkAttribute (lit "id") 23;
             mkAttribute (lit "m") 20000;
             mkAttribute (lit "n") 20002]
       else [];
     GetForeignColumnOptions := λ relid attnum,
       if negb (relid =? 16384) then []
       else if attnum =? 1
       then [mkDefElem (lit "column_name") (replicate 70 "x"%char);
             mkDefElem (lit "keys") []]
       else if attnum =? 2 then [mkDefElem (lit "keys") []]
       else [mkDefElem (lit "arrays") []] |}.

(** A state in which the column table holds the column [m] of the example
    relation. *)
Definition example_column : CustomColumnInfo :=
  {| table_engine := CH_DEFAULT;
     coltype := CF_ISTORE_COL;
     colname := lit "m";
     signfield := [] |}.

Definition example_state : state :=
  {| custom_objects_cache := None;
     custom_columns_cache := Some {[ (16384, 2) := example_column ]} |}.

(** The state after the lookup of the type 20000 of the example catalog. *)
Definition istore_type_object : CustomObjectDef :=
  {| cf_type := CF_ISTORE_TYPE; custom_name := None |}.

Definition istore_type_state : state :=
  {| custom_objects_cache := Some {[ string_key 20000 := istore_type_object ]};
     custom_columns_cache := None |}.

(** The table options that hold one [engine] option. *)
Definition engine_options (val : cstring) : list DefElem :=
  [mkDefElem (lit "engine") val].

(** ** Closed forms for the rest of the file *)

(** The option is an [engine] option whose value passes the [strncasecmp]
    test. *)
Definition engine_matches (def : DefElem) : bool :=
  (strcmp (defname def) (lit "engine") =? 0)
  && (strncasecmp (defGetString def) expected (strlen expected) =? 0).

(** The kind the last [arrays] or [keys] option of a column asks for, if the
    column has one. *)
Fixpoint last_kind_option (options : list DefElem) : option custom_object_type :=
  match options with
  | [] => None
  | def :: rest =>
      match last_kind_option rest with
      | Some kind => Some kind
      | None =>
          if strcmp (defname def) (lit "column_name") =? 0 then None
          else if strcmp (defname def) (lit "arrays") =? 0 then Some CF_ISTORE_ARR
          else if strcmp (defname def) (lit "keys") =? 0 then Some CF_ISTORE_COL
          else None
      end
  end.

(** The example catalog after the [pg_proc] tuples are gone: the ownership
    of function 20001 is still recorded, its tuple is not found. *)
Definition dropped_catalog : CatalogProvider :=
  {| object_key := object_key example_catalog;
     is_builtin := is_builtin example_catalog;
     getExtensionOfObject := getExtensionOfObject example_catalog;
     get_extension_name := get_extension_name example_catalog;
     SearchSysCache1_PROCOID := λ _, None;
     RelationGetDescr := RelationGetDescr example_catalog;
     GetForeignColumnOptions := GetForeignColumnOptions example_catalog |}.

(** * Proofs *)

(** ** Strings *)

Lemma is_nul_false (c : ascii) : c ≠ NUL → is_nul c = false.
Proof.
  intros Hc. unfold is_nul. destruct (Ascii.eqb_spec c NUL); congruence.
Qed.

Lemma tolower_code_zero (c : ascii) : char_code (tolower c) = 0 → c = NUL.
Proof.
  destruct c as [[] [] [] [] [] [] [] []]; vm_compute; congruence.
Qed.

Lemma char_code_inj (c1 c2 : ascii) : char_code c1 = char_code c2 → c1 = c2.
Proof.
  unfold char_code. intros H%Nat2Z.inj.
  by rewrite <- (ascii_nat_embedding c1), <- (ascii_nat_embedding c2), H.
Qed.

(** On strings, [strcmp] answers 0 for equal strings only. *)
Lemma strcmp_eq (s1 s2 : cstring) :
  NoNul s1 → NoNul s2 → strcmp s1 s2 = 0 ↔ s1 = s2.
Proof.
  intros H1. revert s2. induction H1 as [|c1 s1 Hc1 H1 IH]; intros s2 H2.
  - destruct H2 as [|c2 s2 Hc2 H2]; simpl; [done|].
    split; [|done]. intros Hz. destruct Hc2.
    apply char_code_inj. change (char_code NUL) with 0. lia.
  - destruct H2 as [|c2 s2 Hc2 H2]; simpl.
    + split; [|done]. intros Hz. destruct Hc1.
      apply char_code_inj. by change (char_code NUL) with 0.
    + destruct (Ascii.eqb_spec c1 c2) as [->|Hne].
      * rewrite IH by done. split; [by intros -> | by intros [= ->]].
      * split; [|by intros [= ? ?]].
        intros Hz. destruct Hne. apply char_code_inj. lia.
Qed.

Lemma index_app_notin (name rest : cstring) (c : ascii) :
  c ∉ name → index (name ++ c :: rest) c = Some (length name).
Proof.
  induction name as [|x name IH]; intros Hc; simpl.
  - by rewrite Ascii.eqb_refl.
  - apply not_elem_of_cons in Hc as [Hx Hn].
    destruct (Ascii.eqb_spec x c); [congruence|].
    by rewrite IH.
Qed.

Lemma index_None (s : cstring) (c : ascii) : index s c = None ↔ c ∉ s.
Proof.
  induction s as [|x s IH]; simpl.
  - split; [intros _; apply not_elem_of_nil | done].
  - rewrite not_elem_of_cons. destruct (Ascii.eqb_spec x c) as [->|Hne].
    + split; [done | intros [? _]; congruence].
    + destruct (index s c); simpl.
      * split; [done | intros [_ H]; apply IH in H; done].
      * split; [intros _; split; [congruence | by apply IH] | done].
Qed.

Lemma rindex_None (s : cstring) (c : ascii) : rindex s c = None ↔ c ∉ s.
Proof.
  induction s as [|x s IH]; simpl.
  - split; [intros _; apply not_elem_of_nil | done].
  - rewrite not_elem_of_cons. destruct (rindex s c).
    + split; [done | intros [_ H]; apply IH in H; done].
    + destruct (Ascii.eqb_spec x c) as [->|Hne].
      * split; [done | intros [? _]; congruence].
      * split; [intros _; split; [congruence | by apply IH] | done].
Qed.

Lemma rindex_snoc (s : cstring) (c : ascii) : rindex (s ++ [c]) c = Some (length s).
Proof.
  induction s as [|x s IH]; simpl.
  - by rewrite Ascii.eqb_refl.
  - by rewrite IH.
Qed.

Lemma index_lt_length (s : cstring) (c : ascii) (i : nat) :
  index s c = Some i → s !! i = Some c.
Proof.
  revert i. induction s as [|x s IH]; intros i; simpl; [done|].
  destruct (Ascii.eqb_spec x c) as [->|Hne].
  - by intros [= <-].
  - destruct (index s c) as [j|]; simpl; [|done].
    intros [= <-]. simpl. by apply IH.
Qed.

Lemma rindex_lookup (s : cstring) (c : ascii) (i : nat) :
  rindex s c = Some i → s !! i = Some c.
Proof.
  revert i. induction s as [|x s IH]; intros i; simpl; [done|].
  destruct (rindex s c) as [j|].
  - intros [= <-]. simpl. by apply IH.
  - destruct (Ascii.eqb_spec x c) as [->|Hne]; [|done].
    by intros [= <-].
Qed.

(** The guard [start == end] holds only when the value has neither
    parenthesis: the two pointers, when not null, point at different
    characters. *)
Lemma start_eq_end (val : cstring) :
  ptr_eq (index val "("%char) (rindex val ")"%char) = true
  ↔ ("("%char ∉ val) ∧ (")"%char ∉ val).
Proof.
  rewrite <- index_None, <- rindex_None.
  destruct (index val "(") as [s|] eqn:Hs, (rindex val ")") as [e|] eqn:He;
    simpl; try (split; [done | intros [? ?]; done]).
  split; [|intros [? ?]; done].
  intros Heq%Nat.eqb_eq. subst e.
  apply index_lt_length in Hs. apply rindex_lookup in He. congruence.
Qed.

Lemma strncpy_bytes_app (a rest : cstring) :
  NoNul a → strncpy_bytes (a ++ rest) (length a) = a.
Proof.
  induction 1 as [|c a Hc Ha IH]; simpl; [done|].
  by rewrite (is_nul_false c Hc), IH.
Qed.

Lemma c_str_app_nul (a rest : list ascii) :
  NoNul a → c_str (a ++ NUL :: rest) = Some a.
Proof.
  induction 1 as [|c a Hc Ha IH]; simpl; [done|].
  by rewrite (is_nul_false c Hc), IH.
Qed.

Lemma c_str_NoNul (buf : list ascii) (s : cstring) : c_str buf = Some s → NoNul s.
Proof.
  revert s. induction buf as [|c buf IH]; intros s; simpl; [done|].
  unfold is_nul. destruct (Ascii.eqb_spec c NUL) as [->|Hc].
  - intros [= <-]. constructor.
  - destruct (c_str buf) as [r|]; simpl; [|done].
    intros [= <-]. constructor; [done | by apply IH].
Qed.

(** A string that matches the first [n] characters of a terminator-free
    [s2] still matches when characters are appended to it. *)
Lemma strncasecmp_app (s1 s2 rest : cstring) (n : nat) :
  NoNul s2 → (n ≤ length s2)%nat →
  strncasecmp s1 s2 n = 0 → strncasecmp (s1 ++ rest) s2 n = 0.
Proof.
  revert s1 s2. induction n as [|n IH]; intros s1 s2 Hnn Hlen; simpl; [done|].
  destruct s2 as [|c2 s2]; simpl in Hlen; [lia|].
  apply Forall_cons in Hnn as [Hc2 Hnn].
  destruct s1 as [|c1 s1]; simpl.
  - change (char_code (tolower NUL)) with 0.
    destruct (0 - char_code (tolower c2) =? 0) eqn:Hd; simpl.
    + apply Z.eqb_eq in Hd.
      assert (char_code (tolower c2) = 0) as Hz%tolower_code_zero by lia. done.
    + intros Hz. rewrite Hz in Hd. done.
  - destruct (char_code (tolower c1) - char_code (tolower c2) =? 0); simpl; [|done].
    destruct (is_nul c1) eqn:Hn1; [done|].
    apply IH; [done | lia].
Qed.

Lemma expected_NoNul : NoNul expected.
Proof. unfold NoNul. apply Forall_forall. vm_compute. intros c Hc.
  repeat (inversion Hc as [|? ? ? Hc']; subst; [done|]; clear Hc; rename Hc' into Hc).
  inversion Hc.
Qed.

(** ** The engine option *)

Lemma engine_option_other (val : cstring) (fpinfo : CHFdwRelationInfo) :
  strncasecmp val expected (strlen expected) ≠ 0 →
  engine_option val fpinfo = Ok fpinfo.
Proof.
  intros Hne. unfold engine_option.
  destruct (Z.eqb_spec (strncasecmp val expected (strlen expected)) 0); done.
Qed.

(** A matching value without parentheses: the default name is copied. *)
Lemma engine_option_default (val : cstring) (fpinfo : CHFdwRelationInfo) :
  strncasecmp val expected (strlen expected) = 0 →
  "("%char ∉ val → ")"%char ∉ val →
  (5 ≤ length (ch_table_sign_field fpinfo))%nat →
  engine_option val fpinfo =
    Ok (set_sign_field fpinfo
          (lit "sign" ++ NUL :: drop 5 (ch_table_sign_field fpinfo))).
Proof.
  intros Hm Hl Hr Hlen. unfold engine_option. rewrite Hm. simpl (0 =? 0).
  cbv iota.
  assert (ptr_eq (index val "(") (rindex val ")") = true) as ->
    by (by apply start_eq_end).
  cbn [ch_table_sign_field table_options ch_table_engine]. unfold strcpy.
  change (length (lit "sign")) with 4%nat.
  destruct (Nat.ltb_spec 4 (length (ch_table_sign_field fpinfo))); [done | lia].
Qed.

(** A matching value [name(arg)]: the length check, the copy of [arg] and the
    terminator stored at [end - start]. *)
Lemma engine_option_arg (name arg : cstring) (fpinfo : CHFdwRelationInfo) :
  strncasecmp name expected (strlen expected) = 0 →
  "("%char ∉ name → NoNul arg →
  engine_option (name ++ "("%char :: arg ++ [")"%char]) fpinfo =
    if Z.of_nat (length arg) + 1 >? NAMEDATALEN
    then Error "invalid format of ClickHouse engine"
    else
      result_bind
        (of_option (strncpy (ch_table_sign_field fpinfo) (arg ++ [")"%char])
                      (Z.of_nat (length arg))))
        (λ buf,
          result_bind (of_option (store buf (Z.of_nat (length arg) + 1) NUL))
            (λ buf, Ok (set_sign_field fpinfo buf))).
Proof.
  intros Hm Hl Harg. unfold engine_option.
  rewrite (strncasecmp_app name expected _ (strlen expected) expected_NoNul)
    by done.
  simpl (0 =? 0). cbv iota.
  rewrite index_app_notin by done.
  replace (name ++ "("%char :: arg ++ [")"%char])
    with ((name ++ "("%char :: arg) ++ [")"%char])
    by (by rewrite <- app_assoc).
  rewrite rindex_snoc.
  assert (length (name ++ "("%char :: arg) = S (length name + length arg)) as ->
    by (rewrite length_app; simpl; lia).
  assert (ptr_eq (Some (length name)) (Some (S (length name + length arg))) = false)
    as -> by (simpl; apply Nat.eqb_neq; lia).
  replace (Z.of_nat (S (length name + length arg)) - Z.of_nat (length name))
    with (Z.of_nat (length arg) + 1) by lia.
  replace (Z.of_nat (length arg) + 1 - 1) with (Z.of_nat (length arg)) by lia.
  destruct (Z.of_nat (length arg) + 1 >? NAMEDATALEN) eqn:Hd; [done|].
  assert (to_size_t (Z.of_nat (length arg)) = Z.of_nat (length arg)) as ->.
  { unfold to_size_t. apply Z.mod_small. unfold NAMEDATALEN in Hd. lia. }
  rewrite <- app_assoc. simpl ((_ :: _) ++ _).
  rewrite (cons_middle "("%char name (arg ++ [")"%char])), app_assoc.
  rewrite drop_app_length' by (rewrite length_app; simpl; lia).
  done.
Qed.

(** ** The object cache *)

Lemma state_eta (st : state) :
  {| custom_objects_cache := custom_objects_cache st;
     custom_columns_cache := custom_columns_cache st |} = st.
Proof. by destruct st. Qed.

Lemma objects_created (st : state) (m : gmap Z CustomObjectDef) :
  custom_objects_cache st = Some m → objects st = m.
Proof. unfold objects. by intros ->. Qed.

Lemma columns_created (st : state) (m : gmap (Oid * Z) CustomColumnInfo) :
  custom_columns_cache st = Some m → columns st = m.
Proof. unfold columns. by intros ->. Qed.

Lemma columns_mk (o : option (gmap Z CustomObjectDef))
    (m : gmap (Oid * Z) CustomColumnInfo) :
  columns {| custom_objects_cache := o; custom_columns_cache := Some m |} = m.
Proof. done. Qed.

Lemma objects_mk (m : gmap Z CustomObjectDef)
    (c : option (gmap (Oid * Z) CustomColumnInfo)) :
  objects {| custom_objects_cache := Some m; custom_columns_cache := c |} = m.
Proof. done. Qed.

Lemma objects_mk_same (st : state) (c : option (gmap (Oid * Z) CustomColumnInfo)) :
  objects {| custom_objects_cache := custom_objects_cache st;
             custom_columns_cache := c |} = objects st.
Proof. done. Qed.

Lemma checkForCustomType_spec (cat : CatalogProvider) (typeoid : Oid) (st : state) :
  checkForCustomType cat typeoid st =
    Done (type_lookup cat (objects st) typeoid)
      {| custom_objects_cache := Some (type_objects cat (objects st) typeoid);
         custom_columns_cache := custom_columns_cache st |}.
Proof.
  unfold checkForCustomType, type_lookup, type_objects, new_type_entry,
    bind, ensure_objects_cache, ret, set_object.
  destruct (is_builtin cat typeoid); [done|].
  destruct (objects st !! object_key cat typeoid) as [e|]; simpl; [done|].
  destruct (is_istore _); simpl; unfold objects; simpl; [|done].
  by rewrite insert_insert_eq.
Qed.

(** The lookup of a type only adds to the table. *)
Lemma type_objects_subseteq (cat : CatalogProvider) (m : gmap Z CustomObjectDef)
    (typeoid : Oid) :
  m ⊆ type_objects cat m typeoid.
Proof.
  unfold type_objects. destruct (is_builtin cat typeoid); [done|].
  destruct (m !! object_key cat typeoid) eqn:He; [done|].
  by apply insert_subseteq.
Qed.

(** Once a type has been looked up, every later lookup answers the same,
    whatever else the table has taken in since: an entry is never written
    again. *)
Lemma type_lookup_subseteq (cat : CatalogProvider) (m m' : gmap Z CustomObjectDef)
    (typeoid : Oid) :
  type_objects cat m typeoid ⊆ m' →
  type_lookup cat m' typeoid = type_lookup cat m typeoid.
Proof.
  unfold type_objects, type_lookup. destruct (is_builtin cat typeoid); [done|].
  intros Hsub. destruct (m !! object_key cat typeoid) as [e|] eqn:He.
  - by rewrite (lookup_weaken _ _ _ _ He Hsub).
  - by rewrite (lookup_weaken _ m' _ _ (lookup_insert_eq _ _ _) Hsub).
Qed.

(** ** The column options *)

Lemma column_options_loop_fields (options : list DefElem)
    (entry : CustomColumnInfo) (cf : custom_object_type) :
  table_engine (column_options_loop options entry cf).1 = table_engine entry
  ∧ coltype (column_options_loop options entry cf).1 = coltype entry
  ∧ signfield (column_options_loop options entry cf).1 = signfield entry.
Proof.
  revert entry cf. induction options as [|def rest IH]; intros entry cf; simpl; [done|].
  destruct (strcmp (defname def) (lit "column_name") =? 0).
  { match goal with
    | |- context [column_options_loop rest ?e cf] => exact (IH e cf)
    end. }
  destruct (strcmp (defname def) (lit "arrays") =? 0); [apply IH|].
  destruct (strcmp (defname def) (lit "keys") =? 0); apply IH.
Qed.

Lemma column_options_loop_colname (options : list DefElem)
    (entry : CustomColumnInfo) (cf : custom_object_type) :
  colname (column_options_loop options entry cf).1 =
    match last_column_name options with
    | Some v => take (Z.to_nat (NAMEDATALEN - 1)) v
    | None => colname entry
    end.
Proof.
  revert entry cf. induction options as [|def rest IH]; intros entry cf; simpl; [done|].
  destruct (strcmp (defname def) (lit "column_name") =? 0).
  { rewrite IH. by destruct (last_column_name rest). }
  destruct (strcmp (defname def) (lit "arrays") =? 0);
    [|destruct (strcmp (defname def) (lit "keys") =? 0)];
    rewrite IH; by destruct (last_column_name rest).
Qed.

Section NewColumn.
Context (cat : CatalogProvider) (fpinfo : CHFdwRelationInfo) (sign : cstring)
  (relid : Oid) (attnum : Z) (attr : Form_pg_attribute)
  (cdef : option CustomObjectDef).

Let entry : CustomColumnInfo := new_column cat fpinfo sign relid attnum attr cdef.

Lemma new_column_table_engine : table_engine entry = ch_table_engine fpinfo.
Proof.
  unfold entry, new_column.
  pose proof (column_options_loop_fields (GetForeignColumnOptions cat relid attnum)
    {| table_engine := ch_table_engine fpinfo; coltype := CF_USUAL;
       colname := attname attr; signfield := sign |} CF_ISTORE_ARR) as (H1 & _ & _).
  destruct (column_options_loop _ _ _) as [e cf]. simpl in *.
  by destruct (is_istore_type cdef).
Qed.

Lemma new_column_signfield : signfield entry = sign.
Proof.
  unfold entry, new_column.
  pose proof (column_options_loop_fields (GetForeignColumnOptions cat relid attnum)
    {| table_engine := ch_table_engine fpinfo; coltype := CF_USUAL;
       colname := attname attr; signfield := sign |} CF_ISTORE_ARR) as (_ & _ & H3).
  destruct (column_options_loop _ _ _) as [e cf]. simpl in *.
  by destruct (is_istore_type cdef).
Qed.

Lemma new_column_coltype_usual : is_istore_type cdef = false → coltype entry = CF_USUAL.
Proof.
  intros Hc. unfold entry, new_column.
  pose proof (column_options_loop_fields (GetForeignColumnOptions cat relid attnum)
    {| table_engine := ch_table_engine fpinfo; coltype := CF_USUAL;
       colname := attname attr; signfield := sign |} CF_ISTORE_ARR) as (_ & H2 & _).
  destruct (column_options_loop _ _ _) as [e cf]. simpl in *.
  by rewrite Hc.
Qed.

Lemma new_column_colname :
  colname entry =
    match last_column_name (GetForeignColumnOptions cat relid attnum) with
    | Some v => take (Z.to_nat (NAMEDATALEN - 1)) v
    | None => attname attr
    end.
Proof.
  unfold entry, new_column.
  pose proof (column_options_loop_colname (GetForeignColumnOptions cat relid attnum)
    {| table_engine := ch_table_engine fpinfo; coltype := CF_USUAL;
       colname := attname attr; signfield := sign |} CF_ISTORE_ARR) as H.
  destruct (column_options_loop _ _ _) as [e cf]. simpl in *.
  by destruct (is_istore_type cdef).
Qed.
End NewColumn.

(** ** One column *)

Section Columns.
Context (cat : CatalogProvider) (fpinfo : CHFdwRelationInfo) (relid : Oid).

Lemma columns_lookup_created (st : state) (key : Oid * Z) :
  is_Some (columns st !! key) → is_Some (custom_columns_cache st).
Proof.
  unfold columns. destruct (custom_columns_cache st); [eauto|].
  cbn [default]. rewrite lookup_empty. by intros [? ?].
Qed.

Lemma column_step_cached (attnum : Z) (attr : Form_pg_attribute) (st : state) :
  is_Some (columns st !! (relid, attnum)) →
  column_step cat fpinfo relid attnum attr st = Done tt st.
Proof.
  intros He. destruct (columns_lookup_created _ _ He) as [m Hm].
  unfold column_step, bind, hash_search_columns, ret. rewrite Hm.
  rewrite (columns_created st m Hm) in He.
  by rewrite bool_decide_eq_true_2.
Qed.

Lemma column_step_new (attnum : Z) (attr : Form_pg_attribute) (st : state)
    (sign : cstring) :
  is_Some (custom_columns_cache st) →
  columns st !! (relid, attnum) = None →
  c_str (ch_table_sign_field fpinfo) = Some sign →
  column_step cat fpinfo relid attnum attr st =
    Done tt
      {| custom_objects_cache :=
           Some (type_objects cat (objects st) (atttypid attr));
         custom_columns_cache :=
           Some (<[(relid, attnum) :=
                     new_column cat fpinfo sign relid attnum attr
                       (type_lookup cat (objects st) (atttypid attr))]>
                   (columns st)) |}.
Proof.
  intros [m Hm] Hnone Hsign.
  unfold column_step, bind, hash_search_columns, ret. rewrite Hm.
  rewrite (columns_created st m Hm) in Hnone |- *.
  rewrite bool_decide_eq_false_2 by (rewrite Hnone; by intros [? ?]).
  rewrite Hsign. unfold new_column.
  destruct (column_options_loop _ _ _) as [entry cf].
  rewrite checkForCustomType_spec. unfold set_column.
  destruct (is_istore_type _); by rewrite Hm, columns_mk.
Qed.

Lemma column_step_unreadable (attnum : Z) (attr : Form_pg_attribute) (st : state) :
  columns st !! (relid, attnum) = None →
  c_str (ch_table_sign_field fpinfo) = None →
  column_step cat fpinfo relid attnum attr st = Undefined.
Proof.
  intros Hnone Hsign. unfold column_step, bind, hash_search_columns.
  destruct (custom_columns_cache st) as [m|] eqn:Hm; [|done].
  rewrite (columns_created st m Hm) in Hnone.
  rewrite bool_decide_eq_false_2 by (rewrite Hnone; by intros [? ?]).
  by rewrite Hsign.
Qed.

Lemma column_step_uncreated (attnum : Z) (attr : Form_pg_attribute) (st : state) :
  custom_columns_cache st = None →
  column_step cat fpinfo relid attnum attr st = Undefined.
Proof.
  intros Hm. unfold column_step, bind, hash_search_columns. by rewrite Hm.
Qed.

(** Whatever the turn does when it returns: the column is in the table
    afterwards, nothing was taken out of either table, the column table
    exists, and no other key was written. *)
Lemma column_step_Done (attnum : Z) (attr : Form_pg_attribute) (st st' : state) :
  column_step cat fpinfo relid attnum attr st = Done tt st' →
  is_Some (columns st' !! (relid, attnum))
  ∧ columns st ⊆ columns st'
  ∧ is_Some (custom_columns_cache st')
  ∧ (∀ key, key ≠ (relid, attnum) → columns st' !! key = columns st !! key)
  ∧ objects st ⊆ objects st'.
Proof.
  destruct (custom_columns_cache st) as [m|] eqn:Hm;
    [|by rewrite column_step_uncreated].
  destruct (columns st !! (relid, attnum)) as [e|] eqn:He.
  - rewrite column_step_cached by (rewrite He; eauto). intros [= <-].
    rewrite He, Hm. eauto 10.
  - destruct (c_str (ch_table_sign_field fpinfo)) as [sign|] eqn:Hs.
    + rewrite (column_step_new _ _ _ sign) by (rewrite ?Hm; eauto).
      intros [= <-].
      rewrite columns_mk, objects_mk. cbn [custom_columns_cache].
      rewrite lookup_insert_eq. split_and!; eauto.
      * by apply insert_subseteq.
      * intros key Hne. by rewrite lookup_insert_ne.
      * apply type_objects_subseteq.
    + by rewrite column_step_unreadable.
Qed.

(** ** The loop over the columns *)

Lemma all_cached_cons (attnum : Z) (attr : Form_pg_attribute)
    (attrs : list Form_pg_attribute) (m : gmap (Oid * Z) CustomColumnInfo) :
  all_cached relid attnum (attr :: attrs) m
  ↔ is_Some (m !! (relid, attnum)) ∧ all_cached relid (attnum + 1) attrs m.
Proof.
  unfold all_cached. split.
  - intros H. split.
    + specialize (H O). rewrite Z.add_0_r in H. apply H. simpl. lia.
    + intros i Hi. specialize (H (S i)).
      replace (attnum + 1 + Z.of_nat i) with (attnum + Z.of_nat (S i)) by lia.
      apply H. simpl. lia.
  - intros [H0 H] [|i] Hi.
    + by rewrite Z.add_0_r.
    + replace (attnum + Z.of_nat (S i)) with (attnum + 1 + Z.of_nat i) by lia.
      apply H. simpl in Hi. lia.
Qed.

(** Every column already in the table: the loop changes nothing. *)
Lemma columns_loop_cached (attrs : list Form_pg_attribute) (attnum : Z) (st : state) :
  all_cached relid attnum attrs (columns st) →
  columns_loop cat fpinfo relid attnum attrs st = Done tt st.
Proof.
  revert attnum. induction attrs as [|attr attrs IH]; intros attnum Hall;
    cbn [columns_loop]; [done|].
  apply all_cached_cons in Hall as [H0 Hall].
  unfold bind. rewrite column_step_cached by done.
  by apply IH.
Qed.

(** When the loop returns, every column is in the table. *)
Lemma columns_loop_Done (attrs : list Form_pg_attribute) (attnum : Z) (st st' : state) :
  columns_loop cat fpinfo relid attnum attrs st = Done tt st' →
  all_cached relid attnum attrs (columns st')
  ∧ columns st ⊆ columns st'
  ∧ (is_Some (custom_columns_cache st) → is_Some (custom_columns_cache st')).
Proof.
  revert attnum st. induction attrs as [|attr attrs IH]; intros attnum st;
    cbn [columns_loop].
  - intros [= <-]. split_and!; [|done..]. intros i Hi. simpl in Hi. lia.
  - unfold bind.
    destruct (column_step cat fpinfo relid attnum attr st) as [[] st1| |] eqn:Hstep;
      [|done..].
    intros Hloop. apply column_step_Done in Hstep as (H0 & Hsub & Hc & _ & _).
    apply IH in Hloop as (Hall & Hsub' & Hc').
    split_and!.
    + apply all_cached_cons. split; [|done].
      destruct H0 as [e He]. exists e. by eapply lookup_weaken.
    + by etrans.
    + eauto.
Qed.

(** The loop when the sign field can be read: it returns, keeps what the
    table held, and gives every column that was missing the entry
    [new_column] describes. *)
Lemma columns_loop_new (sign : cstring) (attrs : list Form_pg_attribute)
    (attnum : Z) (st : state) :
  c_str (ch_table_sign_field fpinfo) = Some sign →
  is_Some (custom_columns_cache st) →
  ∃ st',
    columns_loop cat fpinfo relid attnum attrs st = Done tt st'
    ∧ objects st ⊆ objects st'
    ∧ (∀ key entry, columns st !! key = Some entry →
                    columns st' !! key = Some entry)
    ∧ (∀ (i : nat) attr,
         attrs !! i = Some attr →
         columns st !! (relid, attnum + Z.of_nat i) = None →
         columns st' !! (relid, attnum + Z.of_nat i) =
           Some (new_column cat fpinfo sign relid (attnum + Z.of_nat i) attr
                   (type_lookup cat (objects st') (atttypid attr)))).
Proof.
  intros Hsign. revert attnum st.
  induction attrs as [|attr attrs IH]; intros attnum st Hc; cbn [columns_loop].
  - exists st. split_and!; done.
  - unfold bind.
    assert (∃ st1, column_step cat fpinfo relid attnum attr st = Done tt st1)
      as [st1 Hstep].
    { destruct (columns st !! (relid, attnum)) eqn:He.
      - rewrite column_step_cached by (rewrite He; eauto). eauto.
      - rewrite (column_step_new _ _ _ sign) by done. eauto. }
    rewrite Hstep.
    pose proof Hstep as (H0 & Hsub & Hc1 & Hframe & Hobj1)%column_step_Done.
    destruct (IH (attnum + 1) st1 Hc1) as (st' & Hloop & Hobj & Hkeep & Hnew).
    exists st'. split; [done|].
    split_and!.
    + by etrans.
    + intros key entry He. apply Hkeep. by eapply lookup_weaken.
    + intros [|i] a Ha Hnone.
      * simpl in Ha. injection Ha as ->. rewrite Z.add_0_r in *.
        apply Hkeep. rewrite (column_step_new _ _ _ sign) in Hstep by done.
        injection Hstep as <-. rewrite columns_mk, objects_mk in *.
        rewrite lookup_insert_eq. do 2 f_equal.
        symmetry. by apply type_lookup_subseteq.
      * simpl in Ha.
        replace (attnum + Z.of_nat (S i)) with (attnum + 1 + Z.of_nat i) in * by lia.
        apply (Hnew i a Ha).
        rewrite Hframe; [done|]. intros [= ?]. lia.
Qed.
End Columns.

(** ** [ApplyCustomTableOptions] as a whole *)

Lemma ApplyCustomTableOptions_Error (cat : CatalogProvider)
    (fpinfo : CHFdwRelationInfo) (relid : Oid) (st : state) (msg : string) :
  table_options_loop (table_options fpinfo) fpinfo = Error msg →
  ApplyCustomTableOptions cat fpinfo relid st = Raised msg st.
Proof. intros H. unfold ApplyCustomTableOptions. by rewrite H. Qed.

Lemma ApplyCustomTableOptions_Ok (cat : CatalogProvider)
    (fpinfo fpinfo' : CHFdwRelationInfo) (relid : Oid) (st : state) :
  table_options_loop (table_options fpinfo) fpinfo = Ok fpinfo' →
  ApplyCustomTableOptions cat fpinfo relid st =
    match columns_loop cat fpinfo' relid 1 (RelationGetDescr cat relid)
            (with_columns_cache st) with
    | Done _ st' => Done fpinfo' st'
    | Raised msg st' => Raised msg st'
    | Undefined => Undefined
    end.
Proof.
  intros H. unfold ApplyCustomTableOptions. rewrite H.
  unfold bind, ensure_columns_cache, ret, with_columns_cache.
  by destruct (columns_loop _ _ _ _ _ _) as [[] ?| |].
Qed.

(** The call returns as soon as the engine option parses and the sign field
    can be read; the columns that were missing get their [new_column]. *)
Lemma ApplyCustomTableOptions_new (cat : CatalogProvider)
    (fpinfo fpinfo' : CHFdwRelationInfo) (sign : cstring) (relid : Oid) (st : state) :
  table_options_loop (table_options fpinfo) fpinfo = Ok fpinfo' →
  c_str (ch_table_sign_field fpinfo') = Some sign →
  ∃ st',
    ApplyCustomTableOptions cat fpinfo relid st = Done fpinfo' st'
    ∧ (∀ key entry, columns st !! key = Some entry →
                    columns st' !! key = Some entry)
    ∧ (∀ (i : nat) attr,
         RelationGetDescr cat relid !! i = Some attr →
         columns st !! (relid, 1 + Z.of_nat i) = None →
         columns st' !! (relid, 1 + Z.of_nat i) =
           Some (new_column cat fpinfo' sign relid (1 + Z.of_nat i) attr
                   (type_lookup cat (objects st') (atttypid attr)))).
Proof.
  intros Hparse Hsign. rewrite (ApplyCustomTableOptions_Ok _ _ fpinfo') by done.
  destruct (columns_loop_new cat fpinfo' relid sign (RelationGetDescr cat relid) 1
              (with_columns_cache st) Hsign) as (st' & -> & _ & Hkeep & Hnew);
    [by eexists|].
  exists st'. split_and!; done.
Qed.

(** A column is missing and the sign field holds no terminator: the loop
    does not return. *)
Lemma columns_loop_unreadable (cat : CatalogProvider) (fpinfo : CHFdwRelationInfo)
    (relid : Oid) (attrs : list Form_pg_attribute) (attnum : Z) (st : state)
    (i : nat) :
  c_str (ch_table_sign_field fpinfo) = None →
  (i < length attrs)%nat →
  columns st !! (relid, attnum + Z.of_nat i) = None →
  columns_loop cat fpinfo relid attnum attrs st = Undefined.
Proof.
  intros Hsign. revert attnum st i.
  induction attrs as [|attr attrs IH]; intros attnum st i Hi Hnone;
    simpl in Hi; [lia|]. cbn [columns_loop]. unfold bind.
  destruct (columns st !! (relid, attnum)) as [e|] eqn:He.
  - rewrite column_step_cached by (rewrite He; eauto).
    destruct i as [|i]; [rewrite Z.add_0_r in Hnone; congruence|].
    apply (IH _ _ i); [lia|].
    by replace (attnum + 1 + Z.of_nat i) with (attnum + Z.of_nat (S i)) by lia.
  - by rewrite column_step_unreadable.
Qed.

(** ** The engine option and the size of the sign field *)

Lemma length_strncpy_bytes (src : cstring) (n : nat) : length (strncpy_bytes src n) = n.
Proof.
  revert src. induction n as [|n IH]; intros src; simpl; [done|].
  destruct src as [|c r]; simpl; [by rewrite length_replicate|].
  destruct (is_nul c); simpl; [by rewrite length_replicate | by rewrite IH].
Qed.

Lemma length_strncpy (dst buf : list ascii) (src : cstring) (n : Z) :
  0 ≤ n → strncpy dst src n = Some buf → length buf = length dst.
Proof.
  intros Hn. unfold strncpy.
  destruct (Z.leb_spec n (Z.of_nat (length dst))); [|done].
  intros [= <-]. rewrite length_app, length_strncpy_bytes, length_drop. lia.
Qed.

Lemma length_strcpy (dst buf : list ascii) (src : cstring) :
  strcpy dst src = Some buf → length buf = length dst.
Proof.
  unfold strcpy. destruct (Nat.ltb_spec (length src) (length dst)); [|done].
  intros [= <-]. rewrite length_app. simpl. rewrite length_drop. lia.
Qed.

Lemma length_store (buf buf' : list ascii) (i : Z) (c : ascii) :
  store buf i c = Some buf' → length buf' = length buf.
Proof.
  unfold store. destruct (_ && _); [|done].
  intros [= <-]. apply length_insert.
Qed.

Lemma to_size_t_nonneg (z : Z) : 0 ≤ to_size_t z.
Proof. unfold to_size_t. apply Z.mod_pos_bound. lia. Qed.

(** Whether the option parses depends on the value and on the size of the
    sign field, not on what the field holds; parsing keeps the option list and
    the size. *)
Lemma engine_option_shape (val : cstring) (fp1 fp2 fp1' : CHFdwRelationInfo) :
  length (ch_table_sign_field fp2) = length (ch_table_sign_field fp1) →
  table_options fp2 = table_options fp1 →
  engine_option val fp1 = Ok fp1' →
  table_options fp1' = table_options fp1
  ∧ length (ch_table_sign_field fp1') = length (ch_table_sign_field fp1)
  ∧ ∃ fp2', engine_option val fp2 = Ok fp2'
            ∧ table_options fp2' = table_options fp1'
            ∧ length (ch_table_sign_field fp2') = length (ch_table_sign_field fp1').
Proof.
  intros Hlen Hopts. unfold engine_option.
  destruct (strncasecmp val expected (strlen expected) =? 0).
  2: { intros [= <-]. split_and!; [done..|]. eexists; split_and!; done. }
  cbn [ch_table_sign_field table_options ch_table_engine].
  destruct (ptr_eq _ _).
  { unfold strcpy. rewrite Hlen. change (length (lit "sign")) with 4%nat.
    destruct (4 <? length (ch_table_sign_field fp1))%nat eqn:Hl; [|done].
    apply Nat.ltb_lt in Hl.
    simpl. intros [= <-]. cbn [ch_table_sign_field table_options].
    split_and!; [done | simpl; rewrite length_drop; lia |].
    eexists; split_and!; [done | done |].
    simpl. rewrite !length_drop. lia. }
  destruct (index val "(") as [s|]; [|done].
  destruct (rindex val ")") as [e|]; [|done].
  destruct (_ >? _); [done|].
  destruct (strncpy (ch_table_sign_field fp1) _ _) as [b1|] eqn:H1; [|done].
  pose proof H1 as L1%length_strncpy; [|apply to_size_t_nonneg].
  unfold strncpy in H1 |- *. rewrite Hlen.
  destruct (_ <=? _); [|done]. simpl in H1 |- *.
  destruct (store b1 _ NUL) as [b1'|] eqn:H2; [|done].
  pose proof H2 as L2%length_store.
  simpl. intros [= <-]. cbn [ch_table_sign_field table_options].
  split_and!; [done | congruence |].
  unfold store in H2 |- *.
  rewrite length_app, length_strncpy_bytes, length_drop, Hlen.
  injection H1 as <-.
  rewrite length_app, length_strncpy_bytes, length_drop in H2.
  destruct (_ && _); [|done]. simpl.
  eexists; split_and!; [done | done |].
  cbn [ch_table_sign_field].
  rewrite length_insert, length_app, length_strncpy_bytes, length_drop, Hlen.
  rewrite L2. by rewrite length_app, length_strncpy_bytes, length_drop.
Qed.

Lemma table_options_loop_shape (options : list DefElem)
    (fp1 fp2 fp1' : CHFdwRelationInfo) :
  length (ch_table_sign_field fp2) = length (ch_table_sign_field fp1) →
  table_options fp2 = table_options fp1 →
  table_options_loop options fp1 = Ok fp1' →
  table_options fp1' = table_options fp1
  ∧ length (ch_table_sign_field fp1') = length (ch_table_sign_field fp1)
  ∧ ∃ fp2', table_options_loop options fp2 = Ok fp2'.
Proof.
  revert fp1 fp2. induction options as [|def rest IH]; intros fp1 fp2 Hlen Hopts;
    cbn [table_options_loop].
  - intros [= <-]. eauto.
  - destruct (strcmp (defname def) (lit "engine") =? 0); [|by apply IH].
    destruct (engine_option (defGetString def) fp1) as [fpa| |] eqn:Ha; [|done..].
    destruct (engine_option_shape _ _ fp2 _ Hlen Hopts Ha)
      as (Ho & Hl & fpb & -> & Hob & Hlb).
    simpl. intros Hrest.
    destruct (IH fpa fpb Hlb Hob Hrest) as (Ho' & Hl' & fp2' & H2).
    split_and!; [congruence | congruence | eauto].
Qed.

Lemma column_step_not_Raised (cat : CatalogProvider) (fpinfo : CHFdwRelationInfo)
    (relid : Oid) (attnum : Z) (attr : Form_pg_attribute) (st st' : state)
    (msg : string) :
  column_step cat fpinfo relid attnum attr st ≠ Raised msg st'.
Proof.
  destruct (custom_columns_cache st) as [m|] eqn:Hm;
    [|by rewrite column_step_uncreated].
  destruct (columns st !! (relid, attnum)) as [e|] eqn:He.
  - by rewrite column_step_cached by (rewrite He; eauto).
  - destruct (c_str (ch_table_sign_field fpinfo)) as [sign|] eqn:Hs.
    + by rewrite (column_step_new _ _ _ _ _ _ sign) by (rewrite ?Hm; eauto).
    + by rewrite column_step_unreadable.
Qed.

Lemma columns_loop_not_Raised (cat : CatalogProvider) (fpinfo : CHFdwRelationInfo)
    (relid : Oid) (attrs : list Form_pg_attribute) (attnum : Z) (st st' : state)
    (msg : string) :
  columns_loop cat fpinfo relid attnum attrs st ≠ Raised msg st'.
Proof.
  revert attnum st. induction attrs as [|attr attrs IH]; intros attnum st;
    cbn [columns_loop]; [done|]. unfold bind.
  destruct (column_step cat fpinfo relid attnum attr st) as [[] st1|m st1|] eqn:Hstep.
  - apply IH.
  - by apply column_step_not_Raised in Hstep.
  - done.
Qed.

Lemma with_columns_cache_created (st : state) :
  is_Some (custom_columns_cache st) → with_columns_cache st = st.
Proof.
  intros [m Hm]. unfold with_columns_cache.
  rewrite (columns_created st m Hm), <- Hm. apply state_eta.
Qed.

(** ** Idempotence *)

(** C4: calling [ApplyCustomTableOptions] a second time with the same catalog
    and the same table options leaves both static tables exactly as the first
    call left them: every column of the relation is found and skipped.  This
    holds whether the second call gets the relation info the first call
    started from or the one it left behind, and when the first call raised an
    error the second raises it again without touching the tables. *)
Theorem ApplyCustomTableOptions_idempotent (cat : CatalogProvider)
    (fpinfo : CHFdwRelationInfo) (relid : Oid) (st : state) :
  (∀ fpinfo1 st1,
     ApplyCustomTableOptions cat fpinfo relid st = Done fpinfo1 st1 →
     ApplyCustomTableOptions cat fpinfo relid st1 = Done fpinfo1 st1
     ∧ ∃ fpinfo2, ApplyCustomTableOptions cat fpinfo1 relid st1 = Done fpinfo2 st1)
  ∧ (∀ msg st1,
       ApplyCustomTableOptions cat fpinfo relid st = Raised msg st1 →
       st1 = st
       ∧ ApplyCustomTableOptions cat fpinfo relid st1 = Raised msg st1).
Proof.
  destruct (table_options_loop (table_options fpinfo) fpinfo) as [fp'|m|] eqn:Hparse.
  - rewrite (ApplyCustomTableOptions_Ok _ _ fp') by done.
    destruct (columns_loop cat fp' relid 1 (RelationGetDescr cat relid)
                (with_columns_cache st)) as [[] st'|m st'|] eqn:Hloop.
    + split; [|done]. intros fpinfo1 st1 [= <- <-].
      apply columns_loop_Done in Hloop as (Hall & _ & Hc).
      specialize (Hc (ltac:(by eexists))).
      split.
      * rewrite (ApplyCustomTableOptions_Ok _ _ fp') by done.
        rewrite with_columns_cache_created by done.
        by rewrite columns_loop_cached.
      * destruct (table_options_loop_shape _ fpinfo fpinfo fp' eq_refl eq_refl Hparse)
          as (Ho & Hl & _).
        destruct (table_options_loop_shape _ fpinfo fp' fp' Hl Ho Hparse)
          as (_ & _ & fp2 & Hparse2).
        exists fp2. rewrite <- Ho in Hparse2.
        rewrite (ApplyCustomTableOptions_Ok _ _ fp2) by done.
        rewrite with_columns_cache_created by done.
        by rewrite columns_loop_cached.
    + by apply columns_loop_not_Raised in Hloop.
    + done.
  - rewrite (ApplyCustomTableOptions_Error _ _ _ _ m) by done.
    split; [done|]. intros msg st1 [= <- <-].
    by rewrite (ApplyCustomTableOptions_Error _ _ _ _ m).
  - unfold ApplyCustomTableOptions. rewrite Hparse. done.
Qed.

(** The two calls on the example relation, the engine option naming the sign
    column [version]. *)
Lemma ApplyCustomTableOptions_idempotent_witness :
  ∃ fpinfo1 st1,
    ApplyCustomTableOptions example_catalog
      (fresh_fpinfo (engine_options (lit "CollapsingMergeTree(version)")))
      16384 initial_state = Done fpinfo1 st1
    ∧ ApplyCustomTableOptions example_catalog
        (fresh_fpinfo (engine_options (lit "CollapsingMergeTree(version)")))
        16384 st1 = Done fpinfo1 st1
    ∧ ∃ fpinfo2,
        ApplyCustomTableOptions example_catalog fpinfo1 16384 st1
        = Done fpinfo2 st1.
Proof.
  destruct (ApplyCustomTableOptions example_catalog
              (fresh_fpinfo (engine_options (lit "CollapsingMergeTree(version)")))
              16384 initial_state) as [fpinfo1 st1| |] eqn:Happly;
    [|by vm_compute in Happly..].
  exists fpinfo1, st1. split; [done|].
  apply (ApplyCustomTableOptions_idempotent example_catalog
           (fresh_fpinfo (engine_options (lit "CollapsingMergeTree(version)")))
           16384 initial_state).
  exact Happly.
Defined.

(** ** Invalidation *)

Lemma invalidate_loop_all (keys : list (Oid * Z))
    (m : gmap (Oid * Z) CustomColumnInfo) :
  NoDup keys → (∀ key, key ∈ keys ↔ is_Some (m !! key)) →
  invalidate_loop keys m = inl ∅.
Proof.
  intros Hnd. revert m. induction Hnd as [|key keys Hnotin Hnd IH]; intros m Hdom;
    cbn [invalidate_loop].
  - f_equal. apply map_empty. intros key.
    apply eq_None_not_Some. rewrite <- Hdom. apply not_elem_of_nil.
  - destruct (proj1 (Hdom key)) as [e ->]; [by left|].
    apply IH. intros key'. rewrite lookup_delete_is_Some, <- Hdom, elem_of_cons.
    split.
    + intros Hin. split; [intros ->; done | by right].
    + intros [Hne [->|Hin]]; done.
Qed.

Lemma invalidate_custom_columns_cache_spec (arg cacheid hashvalue : Z)
    (st : state) (m : gmap (Oid * Z) CustomColumnInfo) :
  custom_columns_cache st = Some m →
  invalidate_custom_columns_cache arg cacheid hashvalue st =
    Done tt {| custom_objects_cache := custom_objects_cache st;
               custom_columns_cache := Some ∅ |}.
Proof.
  intros Hm. unfold invalidate_custom_columns_cache. rewrite Hm.
  rewrite invalidate_loop_all; [done|apply NoDup_fst_map_to_list|].
  intros key. rewrite list_elem_of_fmap. split.
  - intros ([k e] & -> & Hin). apply elem_of_map_to_list in Hin. by exists e.
  - intros [e He]. exists (key, e). split; [done|]. by apply elem_of_map_to_list.
Qed.

(** C5: once the callback [invalidate_custom_columns_cache] has run,
    whatever the notification carries, on the column table (which exists
    whenever the callback is registered, and may be empty), it returns
    without error, the table is empty and the object table is as it was;
    [GetCustomColumnInfo] then answers [NULL] for every table and column, and
    goes on doing so in the state it leaves.  A column is back only after a
    call of [ApplyCustomTableOptions], which, when it returns, has put every
    column of its relation into the table again. *)
Theorem invalidation_complete (arg cacheid hashvalue : Z) (st : state)
    (m : gmap (Oid * Z) CustomColumnInfo) :
  custom_columns_cache st = Some m →
  ∃ st',
    invalidate_custom_columns_cache arg cacheid hashvalue st = Done tt st'
    ∧ columns st' = ∅
    ∧ custom_objects_cache st' = custom_objects_cache st
    ∧ (∀ relid varattno, GetCustomColumnInfo relid varattno st' = Done None st')
    ∧ (∀ cat fpinfo relid fpinfo' st'',
         ApplyCustomTableOptions cat fpinfo relid st' = Done fpinfo' st'' →
         all_cached relid 1 (RelationGetDescr cat relid) (columns st'')).
Proof.
  intros Hm. eexists.
  split; [by apply (invalidate_custom_columns_cache_spec _ _ _ st m)|].
  split_and!; [done | done | |].
  - intros relid varattno. unfold GetCustomColumnInfo, bind, ensure_columns_cache, ret.
    rewrite columns_mk. cbn [custom_objects_cache custom_columns_cache].
    by rewrite lookup_empty.
  - intros cat fpinfo relid fpinfo' st'' Happly.
    destruct (table_options_loop (table_options fpinfo) fpinfo) as [fp'|msg|] eqn:Hparse.
    + rewrite (ApplyCustomTableOptions_Ok _ _ fp') in Happly by done.
      destruct (columns_loop _ _ _ _ _ _) as [[] st2| |] eqn:Hloop; [|done..].
      injection Happly as <- <-.
      by apply columns_loop_Done in Hloop as (Hall & _ & _).
    + by rewrite (ApplyCustomTableOptions_Error _ _ _ _ msg) in Happly.
    + unfold ApplyCustomTableOptions in Happly. by rewrite Hparse in Happly.
Qed.

(** The callback on a table that holds one column. *)
Lemma invalidation_complete_witness :
  custom_columns_cache example_state = Some {[ (16384, 2) := example_column ]}
  ∧ ∃ st',
      invalidate_custom_columns_cache 0 7 0 example_state = Done tt st'
      ∧ columns st' = ∅
      ∧ custom_objects_cache st' = custom_objects_cache example_state
      ∧ (∀ relid varattno, GetCustomColumnInfo relid varattno st' = Done None st')
      ∧ (∀ cat fpinfo relid fpinfo' st'',
           ApplyCustomTableOptions cat fpinfo relid st' = Done fpinfo' st'' →
           all_cached relid 1 (RelationGetDescr cat relid) (columns st'')).
Proof.
  split; [reflexivity|].
  apply (invalidation_complete 0 7 0 example_state
           {[ (16384, 2) := example_column ]}).
  reflexivity.
Defined.

(** ** The shared object table *)

Lemma object_cache_hit_function (cat : CatalogProvider) (oid : Oid) (st : state)
    (m : gmap Z CustomObjectDef) (entry : CustomObjectDef) :
  custom_objects_cache st = Some m → m !! object_key cat oid = Some entry →
  is_builtin cat oid = false →
  checkForCustomFunction cat oid st = Done (Some entry) st.
Proof.
  intros Hm He Hb.
  unfold checkForCustomFunction, bind, ensure_objects_cache, ret.
  rewrite Hb, (objects_created st m Hm), He, <- Hm. by rewrite state_eta.
Qed.

Lemma object_cache_hit_type (cat : CatalogProvider) (oid : Oid) (st : state)
    (m : gmap Z CustomObjectDef) (entry : CustomObjectDef) :
  custom_objects_cache st = Some m → m !! object_key cat oid = Some entry →
  is_builtin cat oid = false →
  checkForCustomType cat oid st = Done (Some entry) st.
Proof.
  intros Hm He Hb.
  unfold checkForCustomType, bind, ensure_objects_cache, ret.
  rewrite Hb, (objects_created st m Hm), He, <- Hm. by rewrite state_eta.
Qed.

(** The entry a lookup returns is the one the table holds afterwards. *)
Lemma checkForCustomFunction_cached (cat : CatalogProvider) (oid : Oid)
    (st st' : state) (entry : CustomObjectDef) :
  checkForCustomFunction cat oid st = Done (Some entry) st' →
  ∃ m, custom_objects_cache st' = Some m ∧ m !! object_key cat oid = Some entry.
Proof.
  unfold checkForCustomFunction, bind, ensure_objects_cache, ret, set_object, raise.
  destruct (is_builtin cat oid); [done|].
  destruct (objects st !! object_key cat oid) as [e|] eqn:He.
  { intros [= <- <-]. eauto. }
  rewrite objects_mk.
  destruct (is_istore _).
  - destruct (SearchSysCache1_PROCOID cat oid) as [proname|]; [|done].
    destruct (strcmp proname (lit "sum") =? 0).
    + rewrite objects_mk. intros [= <- <-]. eexists. split; [done|].
      apply lookup_insert_eq.
    + intros [= <- <-]. eexists. split; [done|]. apply lookup_insert_eq.
  - intros [= <- <-]. eexists. split; [done|]. apply lookup_insert_eq.
Qed.

Lemma checkForCustomType_cached (cat : CatalogProvider) (oid : Oid)
    (st st' : state) (entry : CustomObjectDef) :
  checkForCustomType cat oid st = Done (Some entry) st' →
  ∃ m, custom_objects_cache st' = Some m ∧ m !! object_key cat oid = Some entry.
Proof.
  rewrite checkForCustomType_spec. unfold type_lookup, type_objects.
  destruct (is_builtin cat oid); [done|].
  destruct (objects st !! object_key cat oid) as [e|] eqn:He; simpl.
  - intros [= <- <-]. eauto.
  - intros [= <- <-]. eexists. split; [done|]. apply lookup_insert_eq.
Qed.

(** C10: the two lookups share the one table [custom_objects_cache], keyed by
    what dynahash makes of the bare [Oid] and by nothing else.  When one of them has returned an entry
    for an identifier, the other one, called on the same identifier (not
    builtin), returns that very entry and leaves the state as it is, whatever
    the catalog says about the identifier ([cat'] is any catalog in front of
    the same table): the entry of a type is handed out for a function of the
    same number, and the other way round. *)
Theorem object_cache_shared (cat cat' : CatalogProvider) (oid : Oid)
    (st st' : state) (entry : CustomObjectDef) :
  object_key cat' oid = object_key cat oid →
  is_builtin cat' oid = false →
  (checkForCustomType cat oid st = Done (Some entry) st' →
   checkForCustomFunction cat' oid st' = Done (Some entry) st')
  ∧ (checkForCustomFunction cat oid st = Done (Some entry) st' →
     checkForCustomType cat' oid st' = Done (Some entry) st').
Proof.
  intros Hkey Hb. split.
  - intros (m & Hm & He)%checkForCustomType_cached.
    apply (object_cache_hit_function cat' oid st' m); [done| |done].
    by rewrite Hkey.
  - intros (m & Hm & He)%checkForCustomFunction_cached.
    apply (object_cache_hit_type cat' oid st' m); [done| |done].
    by rewrite Hkey.
Qed.

(** Number 20000 of the example catalog: looked up as the type that [istore]
    owns, then as the function that no extension owns. *)
Lemma object_cache_shared_witness :
  is_builtin example_catalog 20000 = false
  ∧ checkForCustomType example_catalog 20000 initial_state
    = Done (Some istore_type_object) istore_type_state
  ∧ checkForCustomFunction example_catalog 20000 istore_type_state
    = Done (Some istore_type_object) istore_type_state.
Proof.
  split; [reflexivity|]. split; [reflexivity|].
  apply (proj1 (object_cache_shared example_catalog example_catalog 20000
                  initial_state istore_type_state istore_type_object
                  eq_refl eq_refl)).
  reflexivity.
Defined.

(** The key of the table as it is created: functions 20224 = 0x4F00 and
    16640 = 0x4100 both start with a zero byte and share the empty key, so
    that the second one gets the entry of the first. *)
Example object_key_collision :
  string_key 20224 = string_key 16640
  ∧ ∃ st entry,
      checkForCustomFunction example_catalog 20224 initial_state
      = Done (Some entry) st
      ∧ cf_type entry = CF_ISTORE_SUM
      ∧ checkForCustomFunction example_catalog 16640 st = Done (Some entry) st.
Proof.
  split; [reflexivity|].
  eexists _, _. split; [vm_compute; reflexivity|]. split; reflexivity.
Qed.

(** ** Builtin objects *)

(** C8: for an identifier that [is_builtin] accepts, [checkForCustomFunction]
    and [checkForCustomType] both return [NULL]; the entries of the object
    table are the ones it held before (the table itself is created when it
    did not exist yet, and stays empty), and the column table is untouched. *)
Theorem builtin_exclusion (cat : CatalogProvider) (oid : Oid) (st : state) :
  is_builtin cat oid = true →
  (∃ st', checkForCustomFunction cat oid st = Done None st'
          ∧ objects st' = objects st
          ∧ custom_columns_cache st' = custom_columns_cache st)
  ∧ (∃ st', checkForCustomType cat oid st = Done None st'
            ∧ objects st' = objects st
            ∧ custom_columns_cache st' = custom_columns_cache st).
Proof.
  intros Hb. split.
  - unfold checkForCustomFunction, bind, ensure_objects_cache, ret. rewrite Hb.
    eexists. split_and!; done.
  - unfold checkForCustomType, bind, ensure_objects_cache, ret. rewrite Hb.
    eexists. split_and!; done.
Qed.

(** The builtin type 23 on a state whose object table does not exist yet. *)
Lemma builtin_exclusion_witness :
  is_builtin example_catalog 23 = true
  ∧ (∃ st', checkForCustomFunction example_catalog 23 example_state = Done None st'
            ∧ objects st' = objects example_state
            ∧ custom_columns_cache st' = custom_columns_cache example_state)
  ∧ (∃ st', checkForCustomType example_catalog 23 example_state = Done None st'
            ∧ objects st' = objects example_state
            ∧ custom_columns_cache st' = custom_columns_cache example_state).
Proof.
  split; [reflexivity|].
  apply (builtin_exclusion example_catalog 23 example_state). reflexivity.
Defined.

(** ** Functions *)

(** C9, as stated, fails: number 20000 of the example catalog is a function
    that no extension owns, so its entry should be a usual one; after the
    lookup of the type with the same number, [checkForCustomFunction] hands
    out the entry of the type. *)
Lemma function_override_counterexample :
  is_builtin example_catalog 20000 = false
  ∧ checkForCustomType example_catalog 20000 initial_state
    = Done (Some istore_type_object) istore_type_state
  ∧ checkForCustomFunction example_catalog 20000 istore_type_state
    = Done (Some istore_type_object) istore_type_state
  ∧ ¬ function_override example_catalog 20000 istore_type_object.
Proof.
  split; [reflexivity|]. split; [reflexivity|]. split; [reflexivity|].
  vm_compute. discriminate.
Qed.

(** C9, amended: for a function identifier that is not builtin and under
    whose key the shared object table holds no entry yet,
    [checkForCustomFunction] returns an entry, which it has put into the
    table: [CF_ISTORE_SUM] with the remote name [sumMap] exactly when the
    extension that owns the function is [istore] and the function is called
    [sum], and [CF_USUAL] in every other case; the next lookup returns the
    same entry. *)
Theorem function_override_first_lookup (cat : CatalogProvider) (funcid : Oid)
    (proname : cstring) (st : state) :
  is_builtin cat funcid = false →
  objects st !! object_key cat funcid = None →
  SearchSysCache1_PROCOID cat funcid = Some proname →
  ∃ entry st',
    checkForCustomFunction cat funcid st = Done (Some entry) st'
    ∧ function_override cat funcid entry
    ∧ (cf_type entry = CF_ISTORE_SUM ↔
       is_istore (get_extension_name cat
                    (getExtensionOfObject cat ProcedureRelationId funcid)) = true
       ∧ strcmp proname (lit "sum") = 0)
    ∧ checkForCustomFunction cat funcid st' = Done (Some entry) st'.
Proof.
  intros Hb Hnone Hproc.
  assert (∃ entry st',
            checkForCustomFunction cat funcid st = Done (Some entry) st'
            ∧ function_override cat funcid entry
            ∧ (cf_type entry = CF_ISTORE_SUM ↔
               is_istore (get_extension_name cat
                 (getExtensionOfObject cat ProcedureRelationId funcid)) = true
               ∧ strcmp proname (lit "sum") = 0))
    as (entry & st' & Hcall & Hov & Hiff).
  { unfold function_override, is_istore_sum,
      checkForCustomFunction, bind, ensure_objects_cache, ret, set_object.
    rewrite Hb, Hnone, Hproc.
    destruct (is_istore _); cbn [andb].
    - destruct (Z.eqb_spec (strcmp proname (lit "sum")) 0) as [Hs|Hs].
      + eexists _, _. split; [done|]. cbn [cf_type custom_name]. done.
      + eexists _, _. split; [done|]. cbn [cf_type]. split; [done|].
        split; [done | intros [_ ?]; done].
    - eexists _, _. split; [done|]. cbn [cf_type]. split; [done|].
      split; [done | intros [? _]; done]. }
  exists entry, st'. split_and!; [done..|].
  destruct (checkForCustomFunction_cached _ _ _ _ _ Hcall) as (m & Hm & He).
  by apply (object_cache_hit_function cat funcid st' m).
Qed.

(** The [sum] of [istore] and a function outside it, each on its first
    lookup. *)
Lemma function_override_first_lookup_witness :
  (∃ entry st',
     checkForCustomFunction example_catalog 20001 initial_state
     = Done (Some entry) st'
     ∧ cf_type entry = CF_ISTORE_SUM
     ∧ custom_name entry = Some (lit "sumMap"))
  ∧ (∃ entry st',
       checkForCustomFunction example_catalog 20000 initial_state
       = Done (Some entry) st'
       ∧ cf_type entry = CF_USUAL).
Proof.
  split.
  - destruct (function_override_first_lookup example_catalog 20001 (lit "sum")
                initial_state eq_refl eq_refl eq_refl)
      as (entry & st' & Hcall & Hov & _).
    exists entry, st'. split; [exact Hcall|]. exact Hov.
  - destruct (function_override_first_lookup example_catalog 20000 (lit "total")
                initial_state eq_refl eq_refl eq_refl)
      as (entry & st' & Hcall & Hov & _).
    exists entry, st'. split; [exact Hcall|]. exact Hov.
Defined.

(** ** Column kinds and column names *)

(** C6: when [ApplyCustomTableOptions] returns, a column of the relation that
    was not in the table before the call and for whose type
    [checkForCustomType] does not report [CF_ISTORE_TYPE] has an entry with
    [coltype = CF_USUAL], whatever options ([arrays], [keys]) the column
    declares.  The report is the one of the state the call leaves: the call
    has looked the type up, and from then on every lookup answers what that
    one answered. *)
Theorem column_kind_gating (cat : CatalogProvider) (fpinfo fpinfo' : CHFdwRelationInfo)
    (relid : Oid) (st st' : state) (i : nat) (attr : Form_pg_attribute) :
  ApplyCustomTableOptions cat fpinfo relid st = Done fpinfo' st' →
  RelationGetDescr cat relid !! i = Some attr →
  columns st !! (relid, 1 + Z.of_nat i) = None →
  (∀ cdef st2, checkForCustomType cat (atttypid attr) st' = Done cdef st2 →
               is_istore_type cdef = false) →
  ∃ entry,
    columns st' !! (relid, 1 + Z.of_nat i) = Some entry
    ∧ coltype entry = CF_USUAL.
Proof.
  intros Happly Hattr Hnone Htype.
  destruct (table_options_loop (table_options fpinfo) fpinfo) as [fp|msg|] eqn:Hparse.
  - destruct (c_str (ch_table_sign_field fp)) as [sign|] eqn:Hsign.
    + destruct (ApplyCustomTableOptions_new cat fpinfo fp sign relid st Hparse Hsign)
        as (st'' & Happly' & _ & Hnew).
      rewrite Happly' in Happly. injection Happly as <- <-.
      eexists. split; [by apply Hnew|].
      apply new_column_coltype_usual.
      eapply Htype. apply checkForCustomType_spec.
    + rewrite (ApplyCustomTableOptions_Ok _ _ fp) in Happly by done.
      rewrite (columns_loop_unreadable _ _ _ _ _ _ i) in Happly; [done..| |done].
      by eapply lookup_lt_Some.
  - by rewrite (ApplyCustomTableOptions_Error _ _ _ _ msg) in Happly.
  - unfold ApplyCustomTableOptions in Happly. by rewrite Hparse in Happly.
Qed.

(** Column [n] of the example relation: its type 20002 is owned by no
    extension, its options declare [arrays]. *)
Lemma column_kind_gating_witness :
  GetForeignColumnOptions example_catalog 16384 3 = [mkDefElem (lit "arrays") []]
  ∧ ∃ fpinfo' st',
      ApplyCustomTableOptions example_catalog (fresh_fpinfo []) 16384 initial_state
      = Done fpinfo' st'
      ∧ ∃ entry,
          columns st' !! (16384, 3) = Some entry
          ∧ coltype entry = CF_USUAL.
Proof.
  split; [reflexivity|].
  eexists _, _. split; [vm_compute; reflexivity|].
  apply (column_kind_gating example_catalog (fresh_fpinfo []) (fresh_fpinfo [])
           16384 initial_state _ 2 (mkAttribute (lit "n") 20002)).
  - vm_compute. reflexivity.
  - reflexivity.
  - reflexivity.
  - intros cdef st2 Htype. vm_compute in Htype. by injection Htype as <- <-.
Defined.

(** C7, as stated, fails: column [id] of the example relation declares a
    [column_name] of 70 characters, more than the [NAMEDATALEN] bytes of
    [colname]; the call returns, no error is raised, and the entry holds the
    first 63 characters. *)
Lemma column_name_counterexample :
  last_column_name (GetForeignColumnOptions example_catalog 16384 1)
  = Some (replicate 70 "x"%char)
  ∧ NAMEDATALEN < Z.of_nat (length (replicate 70 "x"%char))
  ∧ ∃ fpinfo' st' entry,
      ApplyCustomTableOptions example_catalog (fresh_fpinfo []) 16384 initial_state
      = Done fpinfo' st'
      ∧ columns st' !! (16384, 1) = Some entry
      ∧ colname entry = replicate 63 "x"%char.
Proof.
  split; [reflexivity|]. split; [reflexivity|].
  eexists _, _, _. split; [vm_compute; reflexivity|].
  split; vm_compute; reflexivity.
Qed.

(** C7, amended: a [column_name] option never makes the call fail.  As soon
    as the table options parse and the sign field holds a string, the call
    returns, and every column that was not in the table and declares
    [column_name] gets the first [NAMEDATALEN - 1] characters of the value
    (of the last such option) as its [colname]: a longer value is cut
    without notice, a shorter one is kept whole. *)
Theorem column_name_truncated (cat : CatalogProvider)
    (fpinfo fpinfo' : CHFdwRelationInfo) (sign : cstring) (relid : Oid) (st : state) :
  table_options_loop (table_options fpinfo) fpinfo = Ok fpinfo' →
  c_str (ch_table_sign_field fpinfo') = Some sign →
  ∃ st',
    ApplyCustomTableOptions cat fpinfo relid st = Done fpinfo' st'
    ∧ ∀ (i : nat) attr value,
        RelationGetDescr cat relid !! i = Some attr →
        columns st !! (relid, 1 + Z.of_nat i) = None →
        last_column_name (GetForeignColumnOptions cat relid (1 + Z.of_nat i))
        = Some value →
        ∃ entry,
          columns st' !! (relid, 1 + Z.of_nat i) = Some entry
          ∧ colname entry = take (Z.to_nat (NAMEDATALEN - 1)) value
          ∧ (Z.of_nat (length value) < NAMEDATALEN → colname entry = value).
Proof.
  intros Hparse Hsign.
  destruct (ApplyCustomTableOptions_new cat fpinfo fpinfo' sign relid st Hparse Hsign)
    as (st' & Happly & _ & Hnew).
  exists st'. split; [done|].
  intros i attr value Hattr Hnone Hname.
  eexists. split; [by apply Hnew|].
  rewrite new_column_colname, Hname. split; [done|].
  intros Hlen. apply take_ge. unfold NAMEDATALEN in *. lia.
Qed.

(** The example relation, a relation info fresh from [palloc0] and no table
    option. *)
Lemma column_name_truncated_witness :
  ∃ st',
    ApplyCustomTableOptions example_catalog (fresh_fpinfo []) 16384 initial_state
    = Done (fresh_fpinfo []) st'
    ∧ ∃ entry,
        columns st' !! (16384, 1) = Some entry
        ∧ colname entry = replicate 63 "x"%char.
Proof.
  destruct (column_name_truncated example_catalog (fresh_fpinfo []) (fresh_fpinfo [])
              [] 16384 initial_state eq_refl eq_refl) as (st' & Happly & Hcols).
  exists st'. split; [exact Happly|].
  destruct (Hcols O (mkAttribute (lit "id") 23) (replicate 70 "x"%char)
              eq_refl eq_refl eq_refl) as (entry & Hentry & Hname & _).
  exists entry. split; [exact Hentry | exact Hname].
Defined.

(** ** The sign column of the engine option *)

Lemma table_options_loop_engine (val : cstring) (fpinfo : CHFdwRelationInfo) :
  table_options_loop (engine_options val) fpinfo =
    result_bind (engine_option val fpinfo) Ok.
Proof.
  unfold engine_options. cbn [table_options_loop defname defGetString].
  change (strcmp (lit "engine") (lit "engine") =? 0) with true. cbv iota.
  by destruct (engine_option val fpinfo).
Qed.

(** The sign field after [arg] was copied over zeros and the terminator was
    stored one byte further than the end of [arg]. *)
Lemma sign_field_after_arg (arg : cstring) (n : nat) :
  (length arg + 2 ≤ n)%nat →
  ∃ rest,
    <[S (length arg) := NUL]> (arg ++ drop (length arg) (replicate n NUL))
    = arg ++ NUL :: rest.
Proof.
  intros Hn. rewrite drop_replicate.
  destruct (n - length arg)%nat as [|[|k]] eqn:Hk; [lia..|].
  exists (NUL :: replicate k NUL).
  rewrite insert_app_r_alt by lia.
  by replace (S (length arg) - length arg)%nat with 1%nat by lia.
Qed.

(** C2, as stated, fails at the bound itself: an argument of [NAMEDATALEN]
    characters has a length "at most the bound", and the call raises the
    error. *)
Lemma engine_argument_counterexample :
  Z.of_nat (length (replicate 64 "a"%char)) ≤ NAMEDATALEN
  ∧ ApplyCustomTableOptions example_catalog
      (fresh_fpinfo
         (engine_options
            (lit "CollapsingMergeTree" ++ "("%char :: replicate 64 "a"%char ++ [")"%char])))
      16384 initial_state
    = Raised "invalid format of ClickHouse engine" initial_state.
Proof. split; [by vm_compute | reflexivity]. Qed.

(** C2, amended: for an engine option [name(arg)] whose name matches
    [collapsingmergetree], with [arg] not empty, and a relation info fresh
    from [palloc0], an argument of at most [NAMEDATALEN - 2] characters makes
    the call return with the collapsing engine and [arg] as the sign field, in
    [fpinfo] and in every column entry the call creates; an argument of
    [NAMEDATALEN] characters or more makes it raise the error and leave the
    tables alone.  (With [NAMEDATALEN - 1] characters the length check passes
    and the terminator is stored one byte past the array; the empty argument
    is the matter of C1.) *)
Theorem engine_argument_bound (cat : CatalogProvider) (name arg : cstring)
    (relid : Oid) (st : state) :
  strncasecmp name expected (strlen expected) = 0 →
  "("%char ∉ name →
  arg ≠ [] →
  NoNul arg →
  (Z.of_nat (length arg) ≤ NAMEDATALEN - 2 →
   ∃ fpinfo' st',
     ApplyCustomTableOptions cat
       (fresh_fpinfo (engine_options (name ++ "("%char :: arg ++ [")"%char])))
       relid st = Done fpinfo' st'
     ∧ ch_table_engine fpinfo' = CH_COLLAPSING_MERGE_TREE
     ∧ c_str (ch_table_sign_field fpinfo') = Some arg
     ∧ ∀ (i : nat) attr,
         RelationGetDescr cat relid !! i = Some attr →
         columns st !! (relid, 1 + Z.of_nat i) = None →
         ∃ entry,
           columns st' !! (relid, 1 + Z.of_nat i) = Some entry
           ∧ table_engine entry = CH_COLLAPSING_MERGE_TREE
           ∧ signfield entry = arg)
  ∧ (NAMEDATALEN ≤ Z.of_nat (length arg) →
     ApplyCustomTableOptions cat
       (fresh_fpinfo (engine_options (name ++ "("%char :: arg ++ [")"%char])))
       relid st
     = Raised "invalid format of ClickHouse engine" st).
Proof.
  intros Hname Hparen _ Harg.
  set (val := name ++ "("%char :: arg ++ [")"%char]).
  set (fpinfo := fresh_fpinfo (engine_options val)).
  assert (ch_table_sign_field fpinfo = replicate (Z.to_nat NAMEDATALEN) NUL)
    as Hbuf by done.
  pose proof (table_options_loop_engine val fpinfo) as Hloop.
  unfold val in Hloop at 2. rewrite engine_option_arg in Hloop by done.
  change (engine_options val) with (table_options fpinfo) in Hloop.
  split.
  - intros Hlen.
    destruct (Z.gtb_spec (Z.of_nat (length arg) + 1) NAMEDATALEN) as [Hgt|_];
      [lia|].
    unfold strncpy in Hloop. rewrite Hbuf in Hloop.
    rewrite length_replicate, Nat2Z.id in Hloop.
    destruct (Z.leb_spec (Z.of_nat (length arg)) (Z.of_nat (Z.to_nat NAMEDATALEN)))
      as [_|Hgt]; [|unfold NAMEDATALEN in *; lia].
    rewrite strncpy_bytes_app in Hloop by done.
    unfold store in Hloop. cbn [of_option result_bind] in Hloop.
    rewrite length_app, length_drop, length_replicate in Hloop.
    destruct ((0 <=? Z.of_nat (length arg) + 1)
              && (Z.of_nat (length arg) + 1
                  <? Z.of_nat (length arg + (Z.to_nat NAMEDATALEN - length arg))))
      eqn:Hin.
    2: { apply andb_false_iff in Hin as [Hin|Hin];
           [apply Z.leb_gt in Hin | apply Z.ltb_ge in Hin];
           unfold NAMEDATALEN in *; lia. }
    cbn [of_option result_bind] in Hloop.
    replace (Z.to_nat (Z.of_nat (length arg) + 1)) with (S (length arg)) in Hloop by lia.
    destruct (sign_field_after_arg arg (Z.to_nat NAMEDATALEN)) as [rest Hrest];
      [unfold NAMEDATALEN in *; lia|].
    rewrite Hrest in Hloop.
    destruct (ApplyCustomTableOptions_new cat fpinfo
                (set_sign_field fpinfo (arg ++ NUL :: rest)) arg relid st Hloop)
      as (st' & Happly & _ & Hnew).
    { cbn [set_sign_field ch_table_sign_field]. by apply c_str_app_nul. }
    eexists _, st'. split; [exact Happly|].
    split; [done|]. split; [by apply c_str_app_nul|].
    intros i attr Hattr Hnone. eexists. split; [by apply Hnew|].
    by rewrite new_column_table_engine, new_column_signfield.
  - intros Hlen.
    destruct (Z.gtb_spec (Z.of_nat (length arg) + 1) NAMEDATALEN) as [_|Hle];
      [|lia].
    by apply ApplyCustomTableOptions_Error.
Qed.

(** The option [CollapsingMergeTree(version)] on the example relation. *)
Lemma engine_argument_bound_witness :
  ∃ fpinfo' st',
    ApplyCustomTableOptions example_catalog
      (fresh_fpinfo (engine_options (lit "CollapsingMergeTree(version)")))
      16384 initial_state = Done fpinfo' st'
    ∧ ch_table_engine fpinfo' = CH_COLLAPSING_MERGE_TREE
    ∧ c_str (ch_table_sign_field fpinfo') = Some (lit "version").
Proof.
  assert ("("%char ∉ lit "CollapsingMergeTree") as Hparen
    by (by apply index_None).
  assert (NoNul (lit "version")) as Harg
    by (repeat constructor; discriminate).
  assert (lit "version" ≠ []) as Hne by discriminate.
  destruct (proj1 (engine_argument_bound example_catalog
                     (lit "CollapsingMergeTree") (lit "version") 16384
                     initial_state eq_refl Hparen Hne Harg))
    as (fpinfo' & st' & Happly & Hengine & Hsign & _).
  - vm_compute. discriminate.
  - exists fpinfo', st'. split; [exact Happly|]. split; [exact Hengine | exact Hsign].
Defined.

(** With [NAMEDATALEN - 1] characters the check [end - start > NAMEDATALEN]
    passes and [ch_table_sign_field[end - start]] is one byte past the
    array. *)
Example engine_argument_63 :
  table_options_loop
    (engine_options
       (lit "CollapsingMergeTree" ++ "("%char :: replicate 63 "a"%char ++ [")"%char]))
    (fresh_fpinfo []) = UB.
Proof. reflexivity. Qed.

(** The sign field after the option [CollapsingMergeTree()]: nothing is
    copied, the terminator goes to index 1, byte 0 stays. *)
Lemma engine_option_empty_parens (fpinfo : CHFdwRelationInfo) :
  (2 ≤ length (ch_table_sign_field fpinfo))%nat →
  engine_option (lit "CollapsingMergeTree()") fpinfo =
    Ok (set_sign_field fpinfo (<[1%nat := NUL]> (ch_table_sign_field fpinfo))).
Proof.
  intros Hlen.
  change (lit "CollapsingMergeTree()")
    with (lit "CollapsingMergeTree" ++ "("%char :: [] ++ [")"%char]).
  rewrite engine_option_arg;
    [|reflexivity | by apply index_None | constructor].
  change (Z.of_nat (length (@nil ascii)) + 1 >? NAMEDATALEN) with false. cbv iota.
  unfold strncpy, store. cbn [length].
  change (Z.of_nat 0) with 0. change (0 + 1) with 1.
  change (Z.to_nat 0) with 0%nat. change (Z.to_nat 1) with 1%nat.
  destruct (Z.leb_spec 0 (Z.of_nat (length (ch_table_sign_field fpinfo)))); [|lia].
  cbn [of_option result_bind strncpy_bytes app drop].
  change (0 <=? 1) with true. cbn [andb]. rewrite drop_0.
  destruct (Z.ltb_spec 1 (Z.of_nat (length (ch_table_sign_field fpinfo)))); [|lia].
  done.
Qed.

Lemma c_str_empty_parens (buf : list ascii) :
  (2 ≤ length buf)%nat →
  ∃ s, c_str (<[1%nat := NUL]> buf) = Some s ∧ (length s ≤ 1)%nat.
Proof.
  destruct buf as [|b0 [|b1 rest]]; simpl; [lia..|]. intros _.
  destruct (is_nul b0); eexists; (split; [done|]); simpl; lia.
Qed.

(** The option [CollapsingMergeTree()] on a relation info fresh from
    [palloc0]: the call returns, the engine is the collapsing one, and the
    sign field is the empty string, not [sign] as it is for
    [CollapsingMergeTree]. *)
Example empty_parens_fresh :
  (∃ fpinfo' st',
     ApplyCustomTableOptions example_catalog
       (fresh_fpinfo (engine_options (lit "CollapsingMergeTree()")))
       16384 initial_state = Done fpinfo' st'
     ∧ ch_table_engine fpinfo' = CH_COLLAPSING_MERGE_TREE
     ∧ c_str (ch_table_sign_field fpinfo') = Some []
     ∧ c_str (ch_table_sign_field fpinfo') ≠ Some (lit "sign"))
  ∧ (∃ fpinfo' st',
       ApplyCustomTableOptions example_catalog
         (fresh_fpinfo (engine_options (lit "CollapsingMergeTree")))
         16384 initial_state = Done fpinfo' st'
       ∧ c_str (ch_table_sign_field fpinfo') = Some (lit "sign")).
Proof.
  split.
  - eexists _, _. split; [vm_compute; reflexivity|].
    split; [reflexivity|]. split; [reflexivity | discriminate].
  - eexists _, _. split; [vm_compute; reflexivity | reflexivity].
Qed.

(** C1 on the code: on a relation info whose only table option is [engine],
    whatever its sign field held before, the value [CollapsingMergeTree()]
    makes the call return with the collapsing engine and a sign field that is
    not [sign].  The guard [start == end] holds for no value with parentheses
    ([start_eq_end]); [end - start] is 1, nothing is copied, the terminator
    goes to index 1 and byte 0 stays.  The default [sign] is what a matching
    value gets that holds no parenthesis at all. *)
Theorem engine_empty_parens (cat : CatalogProvider) (fpinfo : CHFdwRelationInfo)
    (val : cstring) (relid : Oid) (st : state) :
  length (ch_table_sign_field fpinfo) = Z.to_nat NAMEDATALEN →
  table_options fpinfo = engine_options val →
  (val = lit "CollapsingMergeTree()" →
   ∃ fpinfo' st',
     ApplyCustomTableOptions cat fpinfo relid st = Done fpinfo' st'
     ∧ ch_table_engine fpinfo' = CH_COLLAPSING_MERGE_TREE
     ∧ c_str (ch_table_sign_field fpinfo') ≠ Some (lit "sign"))
  ∧ (strncasecmp val expected (strlen expected) = 0 →
     "("%char ∉ val → ")"%char ∉ val →
     ∃ fpinfo' st',
       ApplyCustomTableOptions cat fpinfo relid st = Done fpinfo' st'
       ∧ ch_table_engine fpinfo' = CH_COLLAPSING_MERGE_TREE
       ∧ c_str (ch_table_sign_field fpinfo') = Some (lit "sign")).
Proof.
  intros Hlen Hopts.
  pose proof (table_options_loop_engine val fpinfo) as Hloop.
  rewrite <- Hopts in Hloop.
  assert (2 ≤ length (ch_table_sign_field fpinfo))%nat as Hlen2
    by (rewrite Hlen; unfold NAMEDATALEN; lia).
  assert (5 ≤ length (ch_table_sign_field fpinfo))%nat as Hlen5
    by (rewrite Hlen; unfold NAMEDATALEN; lia).
  split.
  - intros ->. rewrite engine_option_empty_parens in Hloop by done.
    cbn [result_bind] in Hloop.
    destruct (c_str_empty_parens (ch_table_sign_field fpinfo) Hlen2) as (s & Hs & Hshort).
    destruct (ApplyCustomTableOptions_new cat fpinfo _ s relid st Hloop Hs)
      as (st' & Happly & _).
    eexists _, st'. split; [exact Happly|]. split; [done|].
    cbn [set_sign_field ch_table_sign_field]. rewrite Hs.
    intros [= ->]. vm_compute in Hshort. lia.
  - intros Hmatch Hl Hr. rewrite engine_option_default in Hloop by done.
    cbn [result_bind] in Hloop.
    assert (c_str (lit "sign" ++ NUL :: drop 5 (ch_table_sign_field fpinfo))
            = Some (lit "sign")) as Hs
      by (apply c_str_app_nul; repeat constructor; discriminate).
    destruct (ApplyCustomTableOptions_new cat fpinfo _ _ relid st Hloop Hs)
      as (st' & Happly & _).
    eexists _, st'. split; [exact Happly|]. split; done.
Qed.

(** The two values on a relation info fresh from [palloc0]. *)
Lemma engine_empty_parens_witness :
  (∃ fpinfo' st',
     ApplyCustomTableOptions example_catalog
       (fresh_fpinfo (engine_options (lit "CollapsingMergeTree()")))
       16384 initial_state = Done fpinfo' st'
     ∧ ch_table_engine fpinfo' = CH_COLLAPSING_MERGE_TREE
     ∧ c_str (ch_table_sign_field fpinfo') ≠ Some (lit "sign"))
  ∧ (∃ fpinfo' st',
       ApplyCustomTableOptions example_catalog
         (fresh_fpinfo (engine_options (lit "CollapsingMergeTree")))
         16384 initial_state = Done fpinfo' st'
       ∧ ch_table_engine fpinfo' = CH_COLLAPSING_MERGE_TREE
       ∧ c_str (ch_table_sign_field fpinfo') = Some (lit "sign")).
Proof.
  split.
  - apply (proj1 (engine_empty_parens example_catalog
                    (fresh_fpinfo (engine_options (lit "CollapsingMergeTree()")))
                    (lit "CollapsingMergeTree()") 16384 initial_state
                    eq_refl eq_refl)).
    reflexivity.
  - apply (proj2 (engine_empty_parens example_catalog
                    (fresh_fpinfo (engine_options (lit "CollapsingMergeTree")))
                    (lit "CollapsingMergeTree") 16384 initial_state
                    eq_refl eq_refl)).
    + reflexivity.
    + by apply index_None.
    + by apply rindex_None.
Defined.

(** ** The invariant of the sign field *)

(** C3 on the code: the option [CollapsingMergeTree()], a relation info fresh
    from [palloc0] and an empty column table.  The call returns and the entry
    of the first column has the collapsing engine and an empty sign field:
    byte 0 of the zeroed field is the one that stays. *)
Lemma sign_invariant_broken :
  ∃ fpinfo' st' entry,
    ApplyCustomTableOptions example_catalog
      (fresh_fpinfo (engine_options (lit "CollapsingMergeTree()")))
      16384 initial_state = Done fpinfo' st'
    ∧ columns st' !! (16384, 1) = Some entry
    ∧ table_engine entry = CH_COLLAPSING_MERGE_TREE
    ∧ signfield entry = []
    ∧ ¬ sign_invariant entry.
Proof.
  eexists _, _, _. split; [vm_compute; reflexivity|].
  split; [vm_compute; reflexivity|].
  split; [reflexivity|]. split; [reflexivity|].
  intros Hinv. by apply Hinv.
Qed.

(** * More on the code *)

(** ** What a call of [ApplyCustomTableOptions] leaves in the tables *)

Lemma ApplyCustomTableOptions_Done_inv (cat : CatalogProvider)
    (fpinfo fpinfo' : CHFdwRelationInfo) (relid : Oid) (st st' : state) :
  ApplyCustomTableOptions cat fpinfo relid st = Done fpinfo' st' →
  table_options_loop (table_options fpinfo) fpinfo = Ok fpinfo'
  ∧ columns_loop cat fpinfo' relid 1 (RelationGetDescr cat relid)
      (with_columns_cache st) = Done tt st'.
Proof.
  intros Happly.
  destruct (table_options_loop (table_options fpinfo) fpinfo) as [fp|msg|] eqn:Hparse.
  - rewrite (ApplyCustomTableOptions_Ok _ _ fp) in Happly by done.
    destruct (columns_loop _ _ _ _ _ _) as [[] st2| |] eqn:Hloop; [|done..].
    by injection Happly as <- <-.
  - by rewrite (ApplyCustomTableOptions_Error _ _ _ _ msg) in Happly.
  - unfold ApplyCustomTableOptions in Happly. by rewrite Hparse in Happly.
Qed.

(** The loop writes the keys of its own attributes and no other, and only
    adds to the object table. *)
Lemma columns_loop_frame (cat : CatalogProvider) (fpinfo : CHFdwRelationInfo)
    (relid : Oid) (attrs : list Form_pg_attribute) (attnum : Z) (st st' : state) :
  columns_loop cat fpinfo relid attnum attrs st = Done tt st' →
  objects st ⊆ objects st'
  ∧ ∀ r a,
      r ≠ relid ∨ a < attnum ∨ attnum + Z.of_nat (length attrs) ≤ a →
      columns st' !! (r, a) = columns st !! (r, a).
Proof.
  revert attnum st. induction attrs as [|attr attrs IH]; intros attnum st;
    cbn [columns_loop].
  - by intros [= <-].
  - unfold bind.
    destruct (column_step cat fpinfo relid attnum attr st) as [[] st1| |] eqn:Hstep;
      [|done..].
    intros Hloop.
    apply column_step_Done in Hstep as (_ & _ & _ & Hframe & Hobj).
    apply IH in Hloop as (Hobj' & Hframe').
    split; [by etrans|].
    intros r a Hout. cbn [length] in Hout. rewrite Hframe'.
    + apply Hframe. intros [= -> ->].
      destruct Hout as [Hr|[Ha|Ha]]; [done | lia | lia].
    + destruct Hout as [Hr|[Ha|Ha]]; [by left | right; lia | right; lia].
Qed.

(** X1: insert and lookup.  When [ApplyCustomTableOptions] has returned,
    [GetCustomColumnInfo] finds an entry for every attribute of the relation,
    under the attribute's number counted from 1, and reading it changes
    nothing. *)
Theorem populated_columns_found (cat : CatalogProvider)
    (fpinfo fpinfo' : CHFdwRelationInfo) (relid : Oid) (st st' : state)
    (i : nat) (attr : Form_pg_attribute) :
  ApplyCustomTableOptions cat fpinfo relid st = Done fpinfo' st' →
  RelationGetDescr cat relid !! i = Some attr →
  ∃ entry,
    GetCustomColumnInfo relid (1 + Z.of_nat i) st' = Done (Some entry) st'.
Proof.
  intros (_ & Hloop)%ApplyCustomTableOptions_Done_inv Hattr.
  apply columns_loop_Done in Hloop as (Hall & _ & Hc).
  specialize (Hc (ltac:(by eexists))).
  destruct (Hall i) as [entry He]; [by eapply lookup_lt_Some|].
  exists entry.
  unfold GetCustomColumnInfo, bind, ensure_columns_cache, ret.
  rewrite He. f_equal. by apply with_columns_cache_created.
Qed.

(** Column [m] of the example relation, read back. *)
Lemma populated_columns_found_witness :
  ∃ fpinfo' st',
    ApplyCustomTableOptions example_catalog (fresh_fpinfo []) 16384 initial_state
    = Done fpinfo' st'
    ∧ ∃ entry, GetCustomColumnInfo 16384 2 st' = Done (Some entry) st'.
Proof.
  eexists _, _. split; [vm_compute; reflexivity|].
  apply (populated_columns_found example_catalog (fresh_fpinfo []) (fresh_fpinfo [])
           16384 initial_state _ 1 (mkAttribute (lit "m") 20000)).
  - vm_compute. reflexivity.
  - reflexivity.
Defined.

(** X2: the first population wins.  An entry that is in the column table
    when [ApplyCustomTableOptions] is called is still there, unchanged, when
    the call returns, whatever the catalog and the table options say by
    then: only the invalidation callback makes room for new values. *)
Theorem cached_columns_kept (cat : CatalogProvider)
    (fpinfo fpinfo' : CHFdwRelationInfo) (relid : Oid) (st st' : state)
    (r : Oid) (a : Z) (entry : CustomColumnInfo) :
  ApplyCustomTableOptions cat fpinfo relid st = Done fpinfo' st' →
  columns st !! (r, a) = Some entry →
  GetCustomColumnInfo r a st' = Done (Some entry) st'.
Proof.
  intros (_ & Hloop)%ApplyCustomTableOptions_Done_inv He.
  apply columns_loop_Done in Hloop as (_ & Hsub & Hc).
  specialize (Hc (ltac:(by eexists))).
  unfold GetCustomColumnInfo, bind, ensure_columns_cache, ret.
  rewrite (lookup_weaken _ _ _ _ He Hsub). f_equal.
  by apply with_columns_cache_created.
Qed.

(** The column [m] of [example_state], cached with the default engine, and a
    call whose engine option now says [CollapsingMergeTree]. *)
Lemma cached_columns_kept_witness :
  ∃ fpinfo' st',
    ApplyCustomTableOptions example_catalog
      (fresh_fpinfo (engine_options (lit "CollapsingMergeTree")))
      16384 example_state = Done fpinfo' st'
    ∧ ch_table_engine fpinfo' = CH_COLLAPSING_MERGE_TREE
    ∧ GetCustomColumnInfo 16384 2 st' = Done (Some example_column) st'
    ∧ table_engine example_column = CH_DEFAULT.
Proof.
  eexists _, _. split; [vm_compute; reflexivity|].
  split; [reflexivity|]. split; [|reflexivity].
  eapply (cached_columns_kept example_catalog
            (fresh_fpinfo (engine_options (lit "CollapsingMergeTree"))) _
            16384 example_state _ 16384 2 example_column).
  - vm_compute. reflexivity.
  - reflexivity.
Defined.

Lemma ApplyCustomTableOptions_frame (cat : CatalogProvider)
    (fpinfo fpinfo' : CHFdwRelationInfo) (relid : Oid) (st st' : state)
    (r : Oid) (a : Z) :
  ApplyCustomTableOptions cat fpinfo relid st = Done fpinfo' st' →
  r ≠ relid ∨ a < 1 ∨ Z.of_nat (length (RelationGetDescr cat relid)) < a →
  columns st' !! (r, a) = columns st !! (r, a).
Proof.
  intros (_ & Hloop)%ApplyCustomTableOptions_Done_inv Hout.
  apply columns_loop_frame in Hloop as (_ & Hframe).
  apply Hframe. destruct Hout as [Hr|[Ha|Ha]]; [by left | right; lia | right; lia].
Qed.

(** X3: the call writes the keys of its own relation only.  An entry of
    another relation, or a key of this relation outside the attribute
    numbers 1 to [natts], reads after the call as it did before; for a
    relation without attributes the column table keeps all its entries. *)
Theorem other_columns_untouched (cat : CatalogProvider)
    (fpinfo fpinfo' : CHFdwRelationInfo) (relid : Oid) (st st' : state)
    (r : Oid) (a : Z) :
  ApplyCustomTableOptions cat fpinfo relid st = Done fpinfo' st' →
  r ≠ relid ∨ a < 1 ∨ Z.of_nat (length (RelationGetDescr cat relid)) < a →
  columns st' !! (r, a) = columns st !! (r, a).
Proof.
  apply ApplyCustomTableOptions_frame.
Qed.

(** Relation 16385 of the example catalog, which has no attribute, on
    [example_state]. *)
Lemma other_columns_untouched_witness :
  ∃ fpinfo' st',
    ApplyCustomTableOptions example_catalog (fresh_fpinfo []) 16385 example_state
    = Done fpinfo' st'
    ∧ columns st' !! (16384, 2) = columns example_state !! (16384, 2).
Proof.
  eexists _, _. split; [vm_compute; reflexivity|].
  apply (other_columns_untouched example_catalog (fresh_fpinfo []) (fresh_fpinfo [])
           16385 example_state _ 16384 2).
  - vm_compute. reflexivity.
  - left. discriminate.
Defined.

(** ** The object table over time *)

(** X4: the first lookup of a type.  For a type that is not builtin and
    under whose key the object table holds nothing, [checkForCustomType]
    returns a new entry, [CF_ISTORE_TYPE] when the extension that owns the
    type is [istore] and [CF_USUAL] otherwise (no owner, another owner), with
    no name written to it; the entry is added under the key of the type and
    the column table is left alone.  From then on the lookup returns this
    entry whatever the catalog says: nothing invalidates the object table. *)
Theorem type_override_first_lookup (cat : CatalogProvider) (typeoid : Oid)
    (st : state) :
  is_builtin cat typeoid = false →
  objects st !! object_key cat typeoid = None →
  ∃ entry st',
    checkForCustomType cat typeoid st = Done (Some entry) st'
    ∧ cf_type entry =
        (if is_istore (get_extension_name cat
                         (getExtensionOfObject cat TypeRelationId typeoid))
         then CF_ISTORE_TYPE else CF_USUAL)
    ∧ custom_name entry = None
    ∧ objects st' = <[object_key cat typeoid := entry]> (objects st)
    ∧ custom_columns_cache st' = custom_columns_cache st
    ∧ ∀ cat',
        object_key cat' typeoid = object_key cat typeoid →
        is_builtin cat' typeoid = false →
        checkForCustomType cat' typeoid st' = Done (Some entry) st'.
Proof.
  intros Hb Hnone. rewrite checkForCustomType_spec.
  unfold type_lookup, type_objects. rewrite Hb, Hnone. cbn [default].
  eexists _, _. split; [done|].
  split; [unfold new_type_entry; by destruct (is_istore _)|].
  split; [unfold new_type_entry; by destruct (is_istore _)|].
  split; [done|]. split; [done|].
  intros cat' Hkey Hb'.
  eapply object_cache_hit_type; [done| |done].
  rewrite Hkey. apply lookup_insert_eq.
Qed.

(** The type 20000 of [istore], looked up again in a catalog in which no
    extension has a name any more. *)
Lemma type_override_first_lookup_witness :
  ∃ entry st',
    checkForCustomType example_catalog 20000 initial_state = Done (Some entry) st'
    ∧ cf_type entry = CF_ISTORE_TYPE
    ∧ checkForCustomType
        {| object_key := string_key;
           is_builtin := λ _, false;
           getExtensionOfObject := λ _ _, 0;
           get_extension_name := λ _, None;
           SearchSysCache1_PROCOID := λ _, None;
           RelationGetDescr := λ _, [];
           GetForeignColumnOptions := λ _ _, [] |}
        20000 st' = Done (Some entry) st'.
Proof.
  destruct (type_override_first_lookup example_catalog 20000 initial_state
              eq_refl eq_refl)
    as (entry & st' & Hcall & Hkind & _ & _ & _ & Hagain).
  exists entry, st'. split; [exact Hcall|]. split; [exact Hkind|].
  apply Hagain; reflexivity.
Defined.

(** X5: a failed function lookup leaves an entry behind.  When the extension
    that owns the function is [istore] and the [pg_proc] tuple is not found,
    [checkForCustomFunction] raises the error after [HASH_ENTER] and after
    [cf_type] was set: the table keeps a [CF_USUAL] entry for the function,
    and the next lookup returns that entry without any error. *)
Theorem function_lookup_failure (cat : CatalogProvider) (funcid : Oid) (st : state) :
  is_builtin cat funcid = false →
  objects st !! object_key cat funcid = None →
  is_istore (get_extension_name cat
               (getExtensionOfObject cat ProcedureRelationId funcid)) = true →
  SearchSysCache1_PROCOID cat funcid = None →
  ∃ st',
    checkForCustomFunction cat funcid st
    = Raised "cache lookup failed for function %u" st'
    ∧ objects st' = <[object_key cat funcid := usual_object]> (objects st)
    ∧ checkForCustomFunction cat funcid st' = Done (Some usual_object) st'.
Proof.
  intros Hb Hnone Hext Hproc.
  unfold checkForCustomFunction at 1.
  unfold bind, ensure_objects_cache, ret, set_object, raise.
  rewrite Hb, Hnone, Hext, Hproc. rewrite objects_mk.
  eexists. split; [done|]. split; [done|].
  eapply object_cache_hit_function; [done | apply lookup_insert_eq | done].
Qed.

(** Function 20001 once its tuple is gone. *)
Lemma function_lookup_failure_witness :
  ∃ st',
    checkForCustomFunction dropped_catalog 20001 initial_state
    = Raised "cache lookup failed for function %u" st'
    ∧ checkForCustomFunction dropped_catalog 20001 st'
      = Done (Some usual_object) st'.
Proof.
  destruct (function_lookup_failure dropped_catalog 20001 initial_state
              eq_refl eq_refl eq_refl eq_refl) as (st' & Hcall & _ & Hnext).
  exists st'. split; [exact Hcall | exact Hnext].
Defined.

Lemma checkForCustomFunction_objects (cat : CatalogProvider) (funcid : Oid)
    (st : state) :
  match checkForCustomFunction cat funcid st with
  | Done _ st' | Raised _ st' =>
      objects st ⊆ objects st'
      ∧ custom_columns_cache st' = custom_columns_cache st
  | Undefined => False
  end.
Proof.
  unfold checkForCustomFunction, bind, ensure_objects_cache, ret, set_object, raise.
  destruct (is_builtin cat funcid); [done|].
  destruct (objects st !! object_key cat funcid) as [e|] eqn:He; [done|].
  destruct (is_istore _);
    [destruct (SearchSysCache1_PROCOID cat funcid) as [proname|];
       [destruct (strcmp proname (lit "sum") =? 0)|]|];
    repeat rewrite objects_mk; rewrite ?insert_insert_eq;
    (split; [by apply insert_subseteq | done]).
Qed.

(** X6: no function of the file removes or rewrites an entry of the object
    table.  Whatever [checkForCustomFunction] (returning or raising),
    [checkForCustomType] and [ApplyCustomTableOptions] find under a key
    before the call is under that key after it; the invalidation callback
    and [GetCustomColumnInfo] leave the object table as it is. *)
Theorem object_entries_kept (cat : CatalogProvider) (st st' : state) :
  (∃ oid r, checkForCustomFunction cat oid st = Done r st')
  ∨ (∃ oid msg, checkForCustomFunction cat oid st = Raised msg st')
  ∨ (∃ oid r, checkForCustomType cat oid st = Done r st')
  ∨ (∃ fpinfo relid fpinfo',
       ApplyCustomTableOptions cat fpinfo relid st = Done fpinfo' st')
  ∨ (∃ arg cacheid hashvalue,
       invalidate_custom_columns_cache arg cacheid hashvalue st = Done tt st')
  ∨ (∃ relid varattno r, GetCustomColumnInfo relid varattno st = Done r st') →
  ∀ key entry, objects st !! key = Some entry → objects st' !! key = Some entry.
Proof.
  intros Hop key entry He.
  assert (objects st ⊆ objects st') as Hsub; [|by eapply lookup_weaken].
  destruct Hop as [(oid & r & H)|[(oid & msg & H)|[(oid & r & H)|
                   [(fp & relid & fp' & H)|[(a & c & h & H)|(relid & v & r & H)]]]]].
  - pose proof (checkForCustomFunction_objects cat oid st) as Hf.
    rewrite H in Hf. by destruct Hf.
  - pose proof (checkForCustomFunction_objects cat oid st) as Hf.
    rewrite H in Hf. by destruct Hf.
  - rewrite checkForCustomType_spec in H. injection H as _ <-.
    rewrite objects_mk. apply type_objects_subseteq.
  - apply ApplyCustomTableOptions_Done_inv in H as (_ & Hloop).
    by apply columns_loop_frame in Hloop as (Hobj & _).
  - unfold invalidate_custom_columns_cache in H.
    destruct (custom_columns_cache st) as [m|]; [|done].
    destruct (invalidate_loop _ _); [|done]. by injection H as <-.
  - unfold GetCustomColumnInfo, bind, ensure_columns_cache, ret in H.
    by injection H as _ <-.
Qed.

(** The entry of the type 20000 after the failed lookup of function 20001. *)
Lemma object_entries_kept_witness :
  ∃ st',
    checkForCustomFunction dropped_catalog 20001 istore_type_state
    = Raised "cache lookup failed for function %u" st'
    ∧ objects st' !! string_key 20000 = Some istore_type_object.
Proof.
  eexists. split; [vm_compute; reflexivity|].
  eapply (object_entries_kept dropped_catalog istore_type_state).
  - right. left. exists 20001, "cache lookup failed for function %u"%string.
    vm_compute. reflexivity.
  - reflexivity.
Defined.

(** X7: the order of two type lookups does not matter.  For two types with
    different keys, looking up one and then the other gives each the answer
    it gets in the other order, and the same state at the end. *)
Theorem type_lookups_commute (cat : CatalogProvider) (a b : Oid) (st : state) :
  object_key cat a ≠ object_key cat b →
  ∃ ra rb sa sb sab,
    checkForCustomType cat a st = Done ra sa
    ∧ checkForCustomType cat b sa = Done rb sab
    ∧ checkForCustomType cat b st = Done rb sb
    ∧ checkForCustomType cat a sb = Done ra sab.
Proof.
  intros Hne. rewrite !checkForCustomType_spec.
  eexists _, _, _, _, _. split; [done|].
  rewrite !checkForCustomType_spec, !objects_mk. cbn [custom_columns_cache].
  assert (∀ x y m, object_key cat x ≠ object_key cat y →
            type_lookup cat (type_objects cat m x) y = type_lookup cat m y)
    as Hlook.
  { intros x y m Hxy. unfold type_lookup, type_objects.
    destruct (is_builtin cat y); [done|]. destruct (is_builtin cat x); [done|].
    destruct (m !! object_key cat x); [done|]. by rewrite lookup_insert_ne. }
  assert (type_objects cat (type_objects cat (objects st) b) a
          = type_objects cat (type_objects cat (objects st) a) b) as Hobj.
  { unfold type_objects.
    destruct (is_builtin cat a), (is_builtin cat b); try done.
    destruct (objects st !! object_key cat a) as [ea|] eqn:Ha,
             (objects st !! object_key cat b) as [eb|] eqn:Hb;
      rewrite ?lookup_insert_ne, ?Ha, ?Hb by done; try done.
    by apply insert_insert_ne. }
  rewrite (Hlook a b), (Hlook b a), Hobj by done. done.
Qed.

(** The types of the columns [m] and [n] of the example relation. *)
Lemma type_lookups_commute_witness :
  ∃ ra rb sa sb sab,
    checkForCustomType example_catalog 20000 initial_state = Done ra sa
    ∧ checkForCustomType example_catalog 20002 sa = Done rb sab
    ∧ checkForCustomType example_catalog 20002 initial_state = Done rb sb
    ∧ checkForCustomType example_catalog 20000 sb = Done ra sab.
Proof.
  apply (type_lookups_commute example_catalog 20000 20002 initial_state).
  vm_compute. discriminate.
Defined.

(** ** Entries that the call creates *)

Lemma column_options_loop_kind (options : list DefElem)
    (entry : CustomColumnInfo) (cf : custom_object_type) :
  (column_options_loop options entry cf).2 = default cf (last_kind_option options).
Proof.
  revert entry cf. induction options as [|def rest IH]; intros entry cf;
    cbn [column_options_loop last_kind_option]; [done|].
  destruct (strcmp (defname def) (lit "column_name") =? 0).
  { rewrite IH. by destruct (last_kind_option rest). }
  destruct (strcmp (defname def) (lit "arrays") =? 0).
  { rewrite IH. by destruct (last_kind_option rest). }
  destruct (strcmp (defname def) (lit "keys") =? 0);
    rewrite IH; by destruct (last_kind_option rest).
Qed.

Lemma new_column_coltype_istore (cat : CatalogProvider) (fpinfo : CHFdwRelationInfo)
    (sign : cstring) (relid : Oid) (attnum : Z) (attr : Form_pg_attribute)
    (cdef : option CustomObjectDef) :
  is_istore_type cdef = true →
  coltype (new_column cat fpinfo sign relid attnum attr cdef)
  = default CF_ISTORE_ARR
      (last_kind_option (GetForeignColumnOptions cat relid attnum)).
Proof.
  intros Hc. unfold new_column.
  pose proof (column_options_loop_kind (GetForeignColumnOptions cat relid attnum)
    {| table_engine := ch_table_engine fpinfo; coltype := CF_USUAL;
       colname := attname attr; signfield := sign |} CF_ISTORE_ARR) as H.
  destruct (column_options_loop _ _ _) as [e cf]. simpl in *.
  by rewrite Hc.
Qed.

(** A returned call that met a missing column has read the sign field. *)
Lemma ApplyCustomTableOptions_Done_new (cat : CatalogProvider)
    (fpinfo fpinfo' : CHFdwRelationInfo) (relid : Oid) (st st' : state)
    (i : nat) (attr : Form_pg_attribute) :
  ApplyCustomTableOptions cat fpinfo relid st = Done fpinfo' st' →
  RelationGetDescr cat relid !! i = Some attr →
  columns st !! (relid, 1 + Z.of_nat i) = None →
  ∃ sign,
    c_str (ch_table_sign_field fpinfo') = Some sign
    ∧ columns st' !! (relid, 1 + Z.of_nat i) =
        Some (new_column cat fpinfo' sign relid (1 + Z.of_nat i) attr
                (type_lookup cat (objects st') (atttypid attr))).
Proof.
  intros Happly Hattr Hnone.
  pose proof Happly as (Hparse & Hloop)%ApplyCustomTableOptions_Done_inv.
  destruct (c_str (ch_table_sign_field fpinfo')) as [sign|] eqn:Hsign.
  - exists sign. split; [done|].
    destruct (ApplyCustomTableOptions_new cat fpinfo fpinfo' sign relid st Hparse Hsign)
      as (st'' & Happly' & _ & Hnew).
    rewrite Happly' in Happly. injection Happly as <-. by apply Hnew.
  - rewrite (columns_loop_unreadable _ _ _ _ _ _ i) in Hloop; [done..| |done].
    by eapply lookup_lt_Some.
Qed.

(** X8: what a new entry takes from the relation info and from the catalog.
    Every column that the call adds carries the engine kind of the relation
    info the call returns and the string its sign field holds, so all the
    columns one call adds agree on both; without a [column_name] option the
    column keeps the name the catalog gives it. *)
Theorem new_entry_fields (cat : CatalogProvider)
    (fpinfo fpinfo' : CHFdwRelationInfo) (relid : Oid) (st st' : state)
    (i : nat) (attr : Form_pg_attribute) :
  ApplyCustomTableOptions cat fpinfo relid st = Done fpinfo' st' →
  RelationGetDescr cat relid !! i = Some attr →
  columns st !! (relid, 1 + Z.of_nat i) = None →
  ∃ entry sign,
    columns st' !! (relid, 1 + Z.of_nat i) = Some entry
    ∧ c_str (ch_table_sign_field fpinfo') = Some sign
    ∧ signfield entry = sign
    ∧ table_engine entry = ch_table_engine fpinfo'
    ∧ (last_column_name (GetForeignColumnOptions cat relid (1 + Z.of_nat i)) = None →
       colname entry = attname attr).
Proof.
  intros Happly Hattr Hnone.
  destruct (ApplyCustomTableOptions_Done_new _ _ _ _ _ _ _ _ Happly Hattr Hnone)
    as (sign & Hsign & Hentry).
  eexists _, sign. split; [exact Hentry|]. split; [done|].
  rewrite new_column_signfield, new_column_table_engine, new_column_colname.
  split; [done|]. split; [done|]. by intros ->.
Qed.

(** Column [m] of the example relation under [CollapsingMergeTree(version)]. *)
Lemma new_entry_fields_witness :
  ∃ fpinfo' st',
    ApplyCustomTableOptions example_catalog
      (fresh_fpinfo (engine_options (lit "CollapsingMergeTree(version)")))
      16384 initial_state = Done fpinfo' st'
    ∧ ∃ entry sign,
        columns st' !! (16384, 2) = Some entry
        ∧ c_str (ch_table_sign_field fpinfo') = Some sign
        ∧ signfield entry = sign
        ∧ table_engine entry = ch_table_engine fpinfo'
        ∧ (last_column_name (GetForeignColumnOptions example_catalog 16384 2) = None →
           colname entry = lit "m").
Proof.
  eexists _, _. split; [vm_compute; reflexivity|].
  eapply (new_entry_fields example_catalog
            (fresh_fpinfo (engine_options (lit "CollapsingMergeTree(version)")))
            _ 16384 initial_state _ 1 (mkAttribute (lit "m") 20000)).
  - vm_compute. reflexivity.
  - reflexivity.
  - reflexivity.
Defined.

(** X9: the kind of a sparse-map column.  A column that the call adds and
    whose type [checkForCustomType] reports as [CF_ISTORE_TYPE] takes the
    kind its options ask for: [CF_ISTORE_COL] when the last of its [arrays]
    and [keys] options is [keys], [CF_ISTORE_ARR] when it is [arrays] and
    when the column has neither. *)
Theorem column_kind_selected (cat : CatalogProvider)
    (fpinfo fpinfo' : CHFdwRelationInfo) (relid : Oid) (st st' : state)
    (i : nat) (attr : Form_pg_attribute) (cdef : option CustomObjectDef)
    (st2 : state) :
  ApplyCustomTableOptions cat fpinfo relid st = Done fpinfo' st' →
  RelationGetDescr cat relid !! i = Some attr →
  columns st !! (relid, 1 + Z.of_nat i) = None →
  checkForCustomType cat (atttypid attr) st' = Done cdef st2 →
  is_istore_type cdef = true →
  ∃ entry,
    columns st' !! (relid, 1 + Z.of_nat i) = Some entry
    ∧ coltype entry =
        default CF_ISTORE_ARR
          (last_kind_option (GetForeignColumnOptions cat relid (1 + Z.of_nat i))).
Proof.
  intros Happly Hattr Hnone Htype Histore.
  destruct (ApplyCustomTableOptions_Done_new _ _ _ _ _ _ _ _ Happly Hattr Hnone)
    as (sign & Hsign & Hentry).
  eexists. split; [exact Hentry|].
  apply new_column_coltype_istore.
  rewrite checkForCustomType_spec in Htype. by injection Htype as <- _.
Qed.

(** Column [m] of the example relation: its type belongs to [istore], its
    one option is [keys]. *)
Lemma column_kind_selected_witness :
  last_kind_option (GetForeignColumnOptions example_catalog 16384 2)
  = Some CF_ISTORE_COL
  ∧ ∃ fpinfo' st',
      ApplyCustomTableOptions example_catalog (fresh_fpinfo []) 16384 initial_state
      = Done fpinfo' st'
      ∧ ∃ entry,
          columns st' !! (16384, 2) = Some entry
          ∧ coltype entry =
              default CF_ISTORE_ARR
                (last_kind_option (GetForeignColumnOptions example_catalog 16384 2)).
Proof.
  split; [reflexivity|].
  eexists _, _. split; [vm_compute; reflexivity|].
  eapply (column_kind_selected example_catalog (fresh_fpinfo []) _ 16384
            initial_state _ 1 (mkAttribute (lit "m") 20000)).
  - vm_compute. reflexivity.
  - reflexivity.
  - reflexivity.
  - vm_compute. reflexivity.
  - reflexivity.
Defined.

(** X10: invalidation, then population.  After the callback has emptied the
    column table, a call of [ApplyCustomTableOptions] whose engine option
    parses fills it with the attributes of its relation and nothing else:
    the keys of the table are exactly this relation with the numbers 1 to
    [natts], and every entry carries the engine kind and the sign field of
    the relation info of this call, whatever the table held before the
    invalidation. *)
Theorem repopulation_after_invalidation (cat : CatalogProvider)
    (fpinfo fpinfo' : CHFdwRelationInfo) (sign : cstring) (relid : Oid)
    (arg cacheid hashvalue : Z) (st : state)
    (m : gmap (Oid * Z) CustomColumnInfo) :
  custom_columns_cache st = Some m →
  table_options_loop (table_options fpinfo) fpinfo = Ok fpinfo' →
  c_str (ch_table_sign_field fpinfo') = Some sign →
  ∃ st1 st2,
    invalidate_custom_columns_cache arg cacheid hashvalue st = Done tt st1
    ∧ ApplyCustomTableOptions cat fpinfo relid st1 = Done fpinfo' st2
    ∧ (∀ r a, is_Some (columns st2 !! (r, a)) ↔
              r = relid ∧ 1 ≤ a ≤ Z.of_nat (length (RelationGetDescr cat relid)))
    ∧ (∀ a entry, columns st2 !! (relid, a) = Some entry →
                  table_engine entry = ch_table_engine fpinfo'
                  ∧ signfield entry = sign).
Proof.
  intros Hm Hparse Hsign.
  rewrite (invalidate_custom_columns_cache_spec _ _ _ st m Hm).
  set (st1 := {| custom_objects_cache := custom_objects_cache st;
                 custom_columns_cache := Some ∅ |}).
  destruct (ApplyCustomTableOptions_new cat fpinfo fpinfo' sign relid st1 Hparse Hsign)
    as (st2 & Happly & _ & Hnew).
  exists st1, st2. split; [done|]. split; [done|].
  assert (∀ r a, ¬ (r = relid ∧ 1 ≤ a ≤ Z.of_nat (length (RelationGetDescr cat relid))) →
                 columns st2 !! (r, a) = None) as Hout.
  { intros r a Hna.
    rewrite (ApplyCustomTableOptions_frame _ _ _ _ _ _ r a Happly); [done|].
    destruct (decide (r = relid)) as [->|]; [|by left].
    right. lia. }
  assert (∀ a, 1 ≤ a ≤ Z.of_nat (length (RelationGetDescr cat relid)) →
               ∃ attr, columns st2 !! (relid, a) =
                         Some (new_column cat fpinfo' sign relid a attr
                                 (type_lookup cat (objects st2) (atttypid attr))))
    as Hin.
  { intros a Ha.
    destruct (lookup_lt_is_Some_2 (RelationGetDescr cat relid) (Z.to_nat (a - 1)))
      as [attr Hattr]; [lia|].
    exists attr. specialize (Hnew _ _ Hattr).
    replace (1 + Z.of_nat (Z.to_nat (a - 1))) with a in Hnew by lia.
    by apply Hnew. }
  split.
  - intros r a. split.
    + intros [entry He].
      destruct (decide (r = relid ∧ 1 ≤ a ≤ Z.of_nat (length (RelationGetDescr cat relid))))
        as [|Hna]; [done|].
      by rewrite Hout in He.
    + intros [-> Ha]. destruct (Hin a Ha) as [attr ->]. eauto.
  - intros a entry He.
    destruct (decide (1 ≤ a ≤ Z.of_nat (length (RelationGetDescr cat relid))))
      as [Ha|Hna].
    + destruct (Hin a Ha) as [attr Hattr]. rewrite Hattr in He.
      injection He as <-.
      by rewrite new_column_table_engine, new_column_signfield.
    + rewrite Hout in He; [done|]. by intros [_ ?].
Qed.

(** [example_state], which holds column [m] with the default engine, and a
    call for the example relation under [CollapsingMergeTree]. *)
Lemma repopulation_after_invalidation_witness :
  ∃ st1 st2,
    invalidate_custom_columns_cache 0 7 0 example_state = Done tt st1
    ∧ ApplyCustomTableOptions example_catalog
        (fresh_fpinfo (engine_options (lit "CollapsingMergeTree")))
        16384 st1
      = Done (set_sign_field
                (fresh_fpinfo (engine_options (lit "CollapsingMergeTree")))
                (lit "sign" ++ replicate 60 NUL)) st2
    ∧ (∀ r a, is_Some (columns st2 !! (r, a)) ↔
              r = 16384
              ∧ 1 ≤ a ≤ Z.of_nat (length (RelationGetDescr example_catalog 16384)))
    ∧ (∀ a entry, columns st2 !! (16384, a) = Some entry →
                  table_engine entry = CH_COLLAPSING_MERGE_TREE
                  ∧ signfield entry = lit "sign").
Proof.
  apply (repopulation_after_invalidation example_catalog
           (fresh_fpinfo (engine_options (lit "CollapsingMergeTree")))
           (set_sign_field
              (fresh_fpinfo (engine_options (lit "CollapsingMergeTree")))
              (lit "sign" ++ replicate 60 NUL))
           (lit "sign") 16384 0 7 0 example_state
           {[ (16384, 2) := example_column ]});
    reflexivity.
Defined.

(** ** The table options *)

Lemma engine_option_kind (val : cstring) (fpinfo fpinfo' : CHFdwRelationInfo) :
  engine_option val fpinfo = Ok fpinfo' →
  if strncasecmp val expected (strlen expected) =? 0
  then ch_table_engine fpinfo' = CH_COLLAPSING_MERGE_TREE
  else fpinfo' = fpinfo.
Proof.
  unfold engine_option.
  destruct (strncasecmp val expected (strlen expected) =? 0); [|by intros [= <-]].
  cbn [ch_table_sign_field table_options ch_table_engine].
  destruct (ptr_eq _ _).
  { destruct (strcpy _ _); [|done]. by intros [= <-]. }
  destruct (index val "(") as [s|]; [|done].
  destruct (rindex val ")") as [e|]; [|done].
  destruct (_ >? _); [done|].
  destruct (strncpy _ _ _) as [b|]; [|done]. cbn [of_option result_bind].
  destruct (store _ _ _) as [b'|]; [|done]. by intros [= <-].
Qed.

(** X11: which options decide the engine kind.  The loop over the table
    options goes through all of them; options with another name and [engine]
    options whose value does not match leave the relation info as it is, so
    without a matching option the loop returns the relation info untouched.
    When the loop returns and some [engine] option matched, the engine kind
    is the collapsing one, also when a later [engine] option does not match:
    nothing sets it back. *)
Theorem engine_kind_decided (options : list DefElem) (fpinfo : CHFdwRelationInfo) :
  (existsb engine_matches options = false →
   table_options_loop options fpinfo = Ok fpinfo)
  ∧ (∀ fpinfo',
       table_options_loop options fpinfo = Ok fpinfo' →
       ch_table_engine fpinfo' =
         if existsb engine_matches options
         then CH_COLLAPSING_MERGE_TREE
         else ch_table_engine fpinfo).
Proof.
  split.
  - revert fpinfo. induction options as [|def rest IH]; intros fpinfo;
      cbn [existsb table_options_loop]; [done|].
    unfold engine_matches at 1.
    destruct (strcmp (defname def) (lit "engine") =? 0); cbn [andb orb]; [|apply IH].
    destruct (Z.eqb_spec (strncasecmp (defGetString def) expected (strlen expected)) 0)
      as [|Hne]; [done|]. cbn [orb]. intros Hrest.
    rewrite engine_option_other by done. by apply IH.
  - revert fpinfo. induction options as [|def rest IH]; intros fpinfo fpinfo';
      cbn [existsb table_options_loop]; [by intros [= <-]|].
    unfold engine_matches at 1.
    destruct (strcmp (defname def) (lit "engine") =? 0); cbn [andb orb]; [|apply IH].
    destruct (engine_option (defGetString def) fpinfo) as [fp1| |] eqn:H1; [|done..].
    cbn [result_bind]. intros Hrest. apply engine_option_kind in H1.
    rewrite (IH _ _ Hrest).
    destruct (strncasecmp (defGetString def) expected (strlen expected) =? 0);
      cbn [orb].
    + by destruct (existsb engine_matches rest).
    + by subst fp1.
Qed.

(** [CollapsingMergeTree] followed by [MergeTree]. *)
Lemma engine_kind_decided_witness :
  ∃ fpinfo',
    table_options_loop
      [mkDefElem (lit "engine") (lit "CollapsingMergeTree");
       mkDefElem (lit "engine") (lit "MergeTree")]
      (fresh_fpinfo []) = Ok fpinfo'
    ∧ ch_table_engine fpinfo' = CH_COLLAPSING_MERGE_TREE.
Proof.
  eexists. split; [vm_compute; reflexivity|].
  apply (proj2 (engine_kind_decided
                  [mkDefElem (lit "engine") (lit "CollapsingMergeTree");
                   mkDefElem (lit "engine") (lit "MergeTree")]
                  (fresh_fpinfo []))).
  vm_compute. reflexivity.
Defined.

(** ** The engine value *)

Lemma rindex_app_notin (pre tail : cstring) (c : ascii) :
  c ∉ tail → rindex (pre ++ c :: tail) c = Some (length pre).
Proof.
  intros Hc. induction pre as [|x pre IH]; simpl.
  - apply rindex_None in Hc. rewrite Hc. by rewrite Ascii.eqb_refl.
  - by rewrite IH.
Qed.

(** X12: where the sign column is taken from.  The argument runs from the
    first [(] to the last [)] of the value: what follows the last [)] is
    ignored, and parentheses inside count as part of the name of the column.
    On a relation info fresh from [palloc0], a value [name(arg)tail] with a
    matching name, no [(] in the name, no [)] in the tail and an argument of
    1 to [NAMEDATALEN - 2] characters makes the call return with the
    collapsing engine and [arg] as the sign field. *)
Theorem engine_argument_delimiters (cat : CatalogProvider)
    (name arg tail : cstring) (relid : Oid) (st : state) :
  strncasecmp name expected (strlen expected) = 0 →
  "("%char ∉ name →
  ")"%char ∉ tail →
  arg ≠ [] →
  NoNul arg →
  Z.of_nat (length arg) ≤ NAMEDATALEN - 2 →
  ∃ fpinfo' st',
    ApplyCustomTableOptions cat
      (fresh_fpinfo (engine_options (name ++ "("%char :: arg ++ ")"%char :: tail)))
      relid st = Done fpinfo' st'
    ∧ ch_table_engine fpinfo' = CH_COLLAPSING_MERGE_TREE
    ∧ c_str (ch_table_sign_field fpinfo') = Some arg.
Proof.
  intros Hname Hparen Htail _ Harg Hlen.
  set (val := name ++ "("%char :: arg ++ ")"%char :: tail).
  set (fpinfo := fresh_fpinfo (engine_options val)).
  destruct (sign_field_after_arg arg (Z.to_nat NAMEDATALEN)) as [rest Hrest];
    [unfold NAMEDATALEN in *; lia|].
  assert (engine_option val fpinfo
          = Ok (set_sign_field fpinfo (arg ++ NUL :: rest))) as Hopt.
  { unfold engine_option, val.
    rewrite (strncasecmp_app name expected _ (strlen expected) expected_NoNul)
      by done.
    simpl (0 =? 0). cbv iota.
    rewrite index_app_notin by done.
    replace (name ++ "("%char :: arg ++ ")"%char :: tail)
      with ((name ++ "("%char :: arg) ++ ")"%char :: tail)
      by (by rewrite <- app_assoc).
    rewrite rindex_app_notin by done.
    assert (length (name ++ "("%char :: arg) = S (length name + length arg)) as ->
      by (rewrite length_app; simpl; lia).
    assert (ptr_eq (Some (length name)) (Some (S (length name + length arg))) = false)
      as -> by (simpl; apply Nat.eqb_neq; lia).
    replace (Z.of_nat (S (length name + length arg)) - Z.of_nat (length name))
      with (Z.of_nat (length arg) + 1) by lia.
    replace (Z.of_nat (length arg) + 1 - 1) with (Z.of_nat (length arg)) by lia.
    destruct (Z.gtb_spec (Z.of_nat (length arg) + 1) NAMEDATALEN) as [Hgt|_];
      [lia|].
    assert (to_size_t (Z.of_nat (length arg)) = Z.of_nat (length arg)) as ->.
    { unfold to_size_t. apply Z.mod_small. unfold NAMEDATALEN in Hlen. lia. }
    rewrite <- app_assoc. simpl ((_ :: _) ++ _).
    rewrite (cons_middle "("%char name (arg ++ ")"%char :: tail)), app_assoc.
    rewrite drop_app_length' by (rewrite length_app; simpl; lia).
    cbn [ch_table_sign_field table_options ch_table_engine].
    change (ch_table_sign_field fpinfo) with (replicate (Z.to_nat NAMEDATALEN) NUL).
    unfold strncpy. rewrite length_replicate, Nat2Z.id.
    destruct (Z.leb_spec (Z.of_nat (length arg)) (Z.of_nat (Z.to_nat NAMEDATALEN)))
      as [_|Hgt]; [|unfold NAMEDATALEN in *; lia].
    rewrite strncpy_bytes_app by done.
    unfold store. cbn [of_option result_bind].
    rewrite length_app, length_drop, length_replicate.
    destruct ((0 <=? Z.of_nat (length arg) + 1)
              && (Z.of_nat (length arg) + 1
                  <? Z.of_nat (length arg + (Z.to_nat NAMEDATALEN - length arg))))
      eqn:Hin.
    2: { apply andb_false_iff in Hin as [Hin|Hin];
           [apply Z.leb_gt in Hin | apply Z.ltb_ge in Hin];
           unfold NAMEDATALEN in *; lia. }
    cbn [of_option result_bind].
    replace (Z.to_nat (Z.of_nat (length arg) + 1)) with (S (length arg)) by lia.
    by rewrite Hrest. }
  pose proof (table_options_loop_engine val fpinfo) as Hloop.
  rewrite Hopt in Hloop. cbn [result_bind] in Hloop.
  change (engine_options val) with (table_options fpinfo) in Hloop.
  destruct (ApplyCustomTableOptions_new cat fpinfo
              (set_sign_field fpinfo (arg ++ NUL :: rest)) arg relid st Hloop)
    as (st' & Happly & _).
  { cbn [set_sign_field ch_table_sign_field]. by apply c_str_app_nul. }
  eexists _, st'. split; [exact Happly|]. split; [done|].
  by apply c_str_app_nul.
Qed.

(** An engine value as the remote server prints it. *)
Lemma engine_argument_delimiters_witness :
  ∃ fpinfo' st',
    ApplyCustomTableOptions example_catalog
      (fresh_fpinfo
         (engine_options (lit "CollapsingMergeTree(sign) ORDER BY id")))
      16384 initial_state = Done fpinfo' st'
    ∧ ch_table_engine fpinfo' = CH_COLLAPSING_MERGE_TREE
    ∧ c_str (ch_table_sign_field fpinfo') = Some (lit "sign").
Proof.
  apply (engine_argument_delimiters example_catalog
           (lit "CollapsingMergeTree") (lit "sign") (lit " ORDER BY id")
           16384 initial_state).
  - reflexivity.
  - by apply index_None.
  - by apply index_None.
  - discriminate.
  - repeat constructor; discriminate.
  - vm_compute. discriminate.
Defined.

(** X13: a [)] before the [(].  When the last [)] of a matching value comes
    before its first [(], [end - start] is negative: the length check lets
    it pass, the count handed to [strncpy] is [end - start - 1] turned into
    a [size_t], far more than the sign field holds, and the copy runs past
    the field.  No error is raised. *)
Theorem engine_reversed_parens (cat : CatalogProvider) (fpinfo : CHFdwRelationInfo)
    (val : cstring) (s e : nat) (relid : Oid) (st : state) :
  table_options fpinfo = engine_options val →
  strncasecmp val expected (strlen expected) = 0 →
  index val "("%char = Some s →
  rindex val ")"%char = Some e →
  (e < s)%nat →
  Z.of_nat (length val) < 2 ^ 63 →
  Z.of_nat (length (ch_table_sign_field fpinfo)) < 2 ^ 63 →
  ApplyCustomTableOptions cat fpinfo relid st = Undefined.
Proof.
  intros Hopts Hmatch Hs He Hlt Hval Hbuf.
  assert (s < length val)%nat as Hslen
    by (eapply lookup_lt_Some; by apply index_lt_length in Hs).
  assert (engine_option val fpinfo = UB) as Hopt.
  { unfold engine_option. rewrite Hmatch, Hs, He. simpl (0 =? 0). cbv iota.
    assert (ptr_eq (Some s) (Some e) = false) as ->
      by (simpl; apply Nat.eqb_neq; lia).
    destruct (Z.gtb_spec (Z.of_nat e - Z.of_nat s) NAMEDATALEN) as [Hgt|_];
      [unfold NAMEDATALEN in Hgt; lia|].
    cbn [ch_table_sign_field]. unfold strncpy.
    assert (to_size_t (Z.of_nat e - Z.of_nat s - 1)
            = 2 ^ 64 + (Z.of_nat e - Z.of_nat s - 1)) as ->.
    { unfold to_size_t.
      rewrite <- (Z.mod_add _ 1 (2 ^ 64)) by lia.
      rewrite Z.mod_small; lia. }
    destruct (Z.leb_spec (2 ^ 64 + (Z.of_nat e - Z.of_nat s - 1))
                (Z.of_nat (length (ch_table_sign_field fpinfo)))); [lia|].
    done. }
  unfold ApplyCustomTableOptions.
  rewrite Hopts, table_options_loop_engine, Hopt. done.
Qed.

(** The value [CollapsingMergeTree)(]. *)
Lemma engine_reversed_parens_witness :
  ApplyCustomTableOptions example_catalog
    (fresh_fpinfo (engine_options (lit "CollapsingMergeTree)(")))
    16384 initial_state = Undefined.
Proof.
  apply (engine_reversed_parens example_catalog
           (fresh_fpinfo (engine_options (lit "CollapsingMergeTree)(")))
           (lit "CollapsingMergeTree)(") 20 19 16384 initial_state);
    try reflexivity.
  lia.
Defined.

Lemma strncasecmp_lower (s1 s2 : cstring) (n : nat) :
  NoNul s2 → length s2 = n →
  strncasecmp s1 s2 n = 0 ↔ tolower <$> take n s1 = tolower <$> s2.
Proof.
  revert s1 s2. induction n as [|n IH]; intros s1 s2 Hnn Hlen.
  - destruct s2; [|done]. by rewrite take_0.
  - destruct s2 as [|c2 s2]; [done|]. injection Hlen as Hlen.
    apply Forall_cons in Hnn as [Hc2 Hnn].
    assert (char_code (tolower c2) ≠ 0) as Hz2
      by (intros Hz%tolower_code_zero; done).
    destruct s1 as [|c1 s1]; cbn [strncasecmp hd tl take fmap list_fmap].
    + change (char_code (tolower NUL)) with 0.
      destruct (Z.eqb_spec (0 - char_code (tolower c2)) 0) as [Hd|Hd]; [lia|].
      cbn [negb]. split; [lia | done].
    + destruct (Z.eqb_spec (char_code (tolower c1) - char_code (tolower c2)) 0)
        as [Hd|Hd]; cbn [negb].
      * assert (tolower c1 = tolower c2) as Hc by (apply char_code_inj; lia).
        assert (is_nul c1 = false) as ->.
        { apply is_nul_false. intros ->. apply Hz2. rewrite <- Hc. done. }
        rewrite (IH s1 s2 Hnn Hlen), Hc.
        split; [by intros -> | by intros [= ->]].
      * split; [done|]. intros [= Hc _]. rewrite Hc in Hd. lia.
Qed.

(** X14: which values match.  The test [strncasecmp(val, expected,
    strlen(expected)) == 0] holds exactly for the values whose first 19
    characters, put in lower case, are [collapsingmergetree]: shorter values
    never match, and what follows the nineteenth character plays no part. *)
Theorem engine_value_matches (val : cstring) :
  strncasecmp val expected (strlen expected) = 0
  ↔ tolower <$> take 19 val = lit "collapsingmergetree".
Proof.
  rewrite (strncasecmp_lower val expected (strlen expected) expected_NoNul eq_refl).
  done.
Qed.




